(** * Boids: a shallow embedding of the flock simulation core

    The Rust sources are [src/validate.rs], [src/flock.rs] (the live flock
    coordinator) and [src/boids.rs] (an earlier, self-contained revision of the
    coordinator together with the [Boid] agent type).

    Numeric model: every [f32] of the source is modelled by an exact real
    number ([R]); comparisons are the decidable real orders, [sqrt] is the
    real square root, and [i32] counters that never overflow are [nat].
    A Rust [Vec] indexed by [self.boids[i]] is a [list]; an index out of range
    panics, modelled by [None]. *)

From Stdlib Require Import Reals Psatz List String ZArith Ascii.
Import ListNotations.
Open Scope R_scope.

(** ** Boolean views of the [f32] comparisons *)

Definition f_lt (a b : R) : bool := if Rlt_dec a b then true else false.
Definition f_le (a b : R) : bool := if Rle_dec a b then true else false.
Definition f_gt (a b : R) : bool := f_lt b a.
Definition f_ge (a b : R) : bool := f_le b a.

(** ** The agent ([struct Boid], boids.rs) *)

Record Boid := mkBoid {
  x_pos : R;
  y_pos : R;
  x_vel : R;
  y_vel : R;
}.

(** [Boid::new(x_pos, y_pos, x_vel, y_vel)] *)
Definition Boid_new (x y vx vy : R) : Boid := mkBoid x y vx vy.

(** [impl AddAssign for Boid]: component-wise sum. *)
Definition boid_add_assign (self other : Boid) : Boid :=
  mkBoid (x_pos self + x_pos other) (y_pos self + y_pos other)
         (x_vel self + x_vel other) (y_vel self + y_vel other).

(** [Boid::is_crowded_by_boid] *)
Definition is_crowded_by_boid (self other_boid : Boid)
    (max_dist_before_boid_is_no_longer_crowded : R) : bool :=
  f_lt (Rabs (x_pos self - x_pos other_boid)) max_dist_before_boid_is_no_longer_crowded &&
  f_lt (Rabs (y_pos self - y_pos other_boid)) max_dist_before_boid_is_no_longer_crowded.

(** [Boid::is_within_sight_of_local_boid] *)
Definition is_within_sight_of_local_boid (self other_boid : Boid)
    (max_dist_of_local_boid : R) : bool :=
  f_lt (Rabs (x_pos self - x_pos other_boid)) max_dist_of_local_boid &&
  f_lt (Rabs (y_pos self - y_pos other_boid)) max_dist_of_local_boid.

(** Euclidean speed of an agent. *)
Definition speed (b : Boid) : R := sqrt (x_vel b ^ 2 + y_vel b ^ 2).

(** ** Validation (validate.rs; repeated verbatim in flock.rs) *)

Inductive CreationError :=
| FactorShouldBeMoreThanZero (factor_name : string)
| FactorShouldBeLessThanOne (factor_name : string)
| LocalEnvironmentIsSmallerThanCrowdingEnvironment.

(** [check_float_between_zero_and_one]: the match guards are tried in order. *)
Definition check_float_between_zero_and_one (value : R) (name : string)
    : option CreationError :=
  if f_lt value 0 then Some (FactorShouldBeMoreThanZero name)
  else if f_gt value 1 then Some (FactorShouldBeLessThanOne name)
  else None.

(** [.filter_map(|option| option)] over an array of options. *)
Fixpoint filter_map_id {A} (l : list (option A)) : list A :=
  match l with
  | [] => []
  | Some a :: l' => a :: filter_map_id l'
  | None :: l' => filter_map_id l'
  end.

Definition validate_factors (repulsion_factor adhesion_factor cohesion_factor : R)
    : list CreationError :=
  let repulsion := check_float_between_zero_and_one repulsion_factor "repulsion" in
  let adhesion := check_float_between_zero_and_one adhesion_factor "adhesion" in
  let cohesion := check_float_between_zero_and_one cohesion_factor "cohesion" in
  filter_map_id [repulsion; adhesion; cohesion].

Definition validate_distances (max_dist_before_boid_is_crowded max_dist_of_local_boid : R)
    : option CreationError :=
  if f_ge max_dist_before_boid_is_crowded max_dist_of_local_boid
  then Some LocalEnvironmentIsSmallerThanCrowdingEnvironment
  else None.

(** [struct InvalidFlockConfig { errors: Vec<CreationError> }] *)
Record InvalidFlockConfig := { errors : list CreationError }.

(** [impl fmt::Display for CreationError] (validate.rs; the same text in
    flock.rs and boids.rs): the message [to_string] produces. *)
Definition CreationError_to_string (e : CreationError) : string :=
  match e with
  | FactorShouldBeMoreThanZero factor_name =>
      (factor_name ++ " factor is negative")%string
  | FactorShouldBeLessThanOne factor_name =>
      (factor_name ++ " factor is too large and should be below zero")%string
  | LocalEnvironmentIsSmallerThanCrowdingEnvironment =>
      "local environment is smaller than (or equal to) crowding environment"%string
  end.

(** Rust's [Result<T, E>]. *)
Inductive result (T E : Type) :=
| Ok (t : T)
| Err (e : E).
Arguments Ok {T E} t.
Arguments Err {T E} e.

(** ** The flock coordinator (flock.rs) *)

Record Flock := mkFlock {
  flock_size : nat;
  boids : list Boid;
  max_dist_before_boid_is_no_longer_crowded : R;
  max_dist_of_local_boid : R;
  repulsion_factor : R;
  adhesion_factor : R;
  cohesion_factor : R;
  time_per_frame : R;
  boid_max_speed : R;
  frame_width : R;
  frame_height : R;
}.

(** [self.boids = v] *)
Definition set_boids (f : Flock) (bs : list Boid) : Flock :=
  mkFlock (flock_size f) bs (max_dist_before_boid_is_no_longer_crowded f)
    (max_dist_of_local_boid f) (repulsion_factor f) (adhesion_factor f)
    (cohesion_factor f) (time_per_frame f) (boid_max_speed f)
    (frame_width f) (frame_height f).

(** [Flock::validate] *)
Definition validate (self : Flock) : result unit InvalidFlockConfig :=
  let errors0 := validate_factors (repulsion_factor self) (adhesion_factor self)
                   (cohesion_factor self) in
  let errors1 :=
    match validate_distances (max_dist_before_boid_is_no_longer_crowded self)
            (max_dist_of_local_boid self) with
    | Some creation_error => errors0 ++ [creation_error]
    | None => errors0
    end in
  if (0 <? List.length errors1)%nat then Err {| errors := errors1 |} else Ok tt.

(** [Flock::generate_boids]: [flock_size] zero agents pushed in turn. *)
Fixpoint push_zero_boids (n : nat) (acc : list Boid) : list Boid :=
  match n with
  | O => acc
  | S n' => push_zero_boids n' (acc ++ [Boid_new 0 0 0 0])
  end.

Definition generate_boids (self : Flock) : list Boid :=
  push_zero_boids (flock_size self) [].

(** [Flock::init] *)
Definition init (self : Flock) : Flock := set_boids self (generate_boids self).

(** [Flock::new]: the flock is built with an empty [Vec], validated, and only
    then initialised; [?] returns the validation error. *)
Definition Flock_new (flock_size0 : nat)
    (max_dist_before_boid_is_crowded max_dist_of_local_boid0
     repulsion_factor0 adhesion_factor0 cohesion_factor0 : R)
    : result Flock InvalidFlockConfig :=
  let flock := {|
    flock_size := flock_size0;
    boids := [];
    max_dist_before_boid_is_no_longer_crowded := max_dist_before_boid_is_crowded;
    max_dist_of_local_boid := max_dist_of_local_boid0;
    repulsion_factor := repulsion_factor0;
    adhesion_factor := adhesion_factor0;
    cohesion_factor := cohesion_factor0;
    time_per_frame := 1.0;
    boid_max_speed := 8.0;
    frame_width := 800.0;
    frame_height := 500.0 |} in
  match validate flock with
  | Err e => Err e
  | Ok _ => Ok (init flock)
  end.

(** [self.boids[i] = v] on a [Vec]: out of range it panics ([None]). *)
Fixpoint vec_set {A} (l : list A) (i : nat) (a : A) : option (list A) :=
  match l, i with
  | [], _ => None
  | _ :: l', O => Some (a :: l')
  | x :: l', S i' => option_map (cons x) (vec_set l' i' a)
  end.

(** *** Randomised placement ([Flock::randomly_generate_boids])

    [rng.gen_range(lo..hi)] draws [lo + u * (hi - lo)] for a uniform sample
    [u] in [[0, 1)]; [u k] is the sample of the [k]-th call. The calls are made
    in argument order, four per agent. *)
Definition gen_range (lo hi u : R) : R := lo + u * (hi - lo).

Definition random_boid (self : Flock) (u : nat -> R) (j : nat) : Boid :=
  let frame_width0 := frame_width self in
  let mid_frame_x := frame_width0 / 2.0 in
  let mid_frame_y := frame_width0 / 2.0 in
  let max_starting_dist_from_mid_x := frame_width0 / 10.0 in
  let max_starting_dist_from_mid_y := frame_width0 / 10.0 in
  Boid_new
    (mid_frame_x + gen_range (- max_starting_dist_from_mid_x) max_starting_dist_from_mid_x (u (4 * j)%nat))
    (mid_frame_y + gen_range (- max_starting_dist_from_mid_y) max_starting_dist_from_mid_y (u (4 * j + 1)%nat))
    (gen_range (- boid_max_speed self) (boid_max_speed self) (u (4 * j + 2)%nat))
    (gen_range (- boid_max_speed self) (boid_max_speed self) (u (4 * j + 3)%nat)).

Definition randomly_generate_boids (self : Flock) (u : nat -> R) : Flock :=
  set_boids self (map (random_boid self u) (seq 0 (flock_size self))).

(** *** Agent rules called by [Flock::update_boid] *)

(** Modelled from the spec: [Boid::uncrowd_boid], imported by flock.rs from
    boids.rs but absent from the boids.rs under src (§4.1 "separation update":
    [new_vel = vel + (self_pos - mean_neighbor_pos) * repulsion_factor]; it
    computes a new velocity and leaves the position). *)
Definition uncrowd_boid (boid : Boid) (num_crowding_boids : nat)
    (total_x_dist_of_crowding_boids total_y_dist_of_crowding_boids
     repulsion_factor0 time_per_frame0 : R) : Boid :=
  let n := INR num_crowding_boids in
  mkBoid (x_pos boid) (y_pos boid)
    (x_vel boid + (x_pos boid - total_x_dist_of_crowding_boids / n) * repulsion_factor0)
    (y_vel boid + (y_pos boid - total_y_dist_of_crowding_boids / n) * repulsion_factor0).

(** Modelled from the spec: [Boid::align_boid], imported by flock.rs from
    boids.rs but absent from the boids.rs under src (§4.1 "alignment update":
    [new_vel = vel + (mean_neighbor_vel - vel) * adhesion_factor]). *)
Definition align_boid (boid : Boid) (num_local_boids : nat)
    (total_x_vel_of_local_boids total_y_vel_of_local_boids
     adhesion_factor0 time_per_frame0 : R) : Boid :=
  let n := INR num_local_boids in
  mkBoid (x_pos boid) (y_pos boid)
    (x_vel boid + (total_x_vel_of_local_boids / n - x_vel boid) * adhesion_factor0)
    (y_vel boid + (total_y_vel_of_local_boids / n - y_vel boid) * adhesion_factor0).

(** Modelled from the spec: the positional clamp of §4.1 "position
    integration" (a position still outside [(0, frame_dimension)] is clamped
    to [0.1] or [frame_dimension - 0.1]), which §9 orders last:
    limit -> move -> reflect -> clamp. *)
Definition clamp_into_frame (pos frame_dimension : R) : R :=
  if f_le pos 0 then 0.1
  else if f_ge pos frame_dimension then frame_dimension - 0.1
  else pos.

(** Modelled from the spec: the free function [maybe_reflect_off_boundaries],
    imported by flock.rs from boids.rs but absent from the boids.rs under src
    (§4.1 "boundary reflection": predict the next position with the current
    velocity; per axis, if it is at or beyond the frame's upper bound or at or
    below zero, invert that axis's velocity component; no inset). It is the
    last step of [Flock::update_boid], after the move done by [limit_speed],
    so it also applies the clamp of §4.1/§9 to the position. *)
Definition maybe_reflect_off_boundaries (boid : Boid)
    (frame_width0 frame_height0 time_per_frame0 : R) : Boid :=
  let next_x := x_pos boid + x_vel boid * time_per_frame0 in
  let next_y := y_pos boid + y_vel boid * time_per_frame0 in
  mkBoid (clamp_into_frame (x_pos boid) frame_width0)
    (clamp_into_frame (y_pos boid) frame_height0)
    (if (f_ge next_x frame_width0 || f_le next_x 0)%bool then - x_vel boid else x_vel boid)
    (if (f_ge next_y frame_height0 || f_le next_y 0)%bool then - y_vel boid else y_vel boid).

(** [Flock::cohere_boid], on the agent [self.boids[boid_to_update]]. *)
Definition cohere_boid (self : Flock) (boid : Boid) (num_local_boids : nat)
    (total_x_dist_of_local_boids total_y_dist_of_local_boids : R) : Boid :=
  let n := INR num_local_boids in
  let dist_to_ave_x_pos_of_local_boids := total_x_dist_of_local_boids / n - x_pos boid in
  let dist_to_ave_y_pos_of_local_boids := total_y_dist_of_local_boids / n - y_pos boid in
  {| x_vel := x_vel boid + (dist_to_ave_x_pos_of_local_boids * cohesion_factor self)
                           / time_per_frame self;
     y_vel := y_vel boid + (dist_to_ave_y_pos_of_local_boids * cohesion_factor self)
                           / time_per_frame self;
     x_pos := x_pos boid + x_vel boid * time_per_frame self;
     y_pos := y_pos boid + y_vel boid * time_per_frame self |}.

(** The body of [Flock::limit_speed] on the agent it updates: rescale the
    velocity when the speed exceeds the maximum, then advance the position
    with the (possibly rescaled) velocity. *)
Definition limit_speed_boid (boid_max_speed0 time_per_frame0 : R) (boid : Boid) : Boid :=
  let speed0 := sqrt (x_vel boid ^ 2 + y_vel boid ^ 2) in
  let b1 :=
    if f_gt speed0 boid_max_speed0 then
      mkBoid (x_pos boid) (y_pos boid)
        ((x_vel boid / speed0) * boid_max_speed0)
        ((y_vel boid / speed0) * boid_max_speed0)
    else boid in
  {| x_vel := x_vel b1;
     y_vel := y_vel b1;
     x_pos := x_pos b1 + x_vel b1 * time_per_frame0;
     y_pos := y_pos b1 + y_vel b1 * time_per_frame0 |}.

(** [Flock::limit_speed] *)
Definition limit_speed (self : Flock) (boid_to_update : nat) : option Flock :=
  match nth_error (boids self) boid_to_update with
  | None => None
  | Some b =>
      option_map (set_boids self)
        (vec_set (boids self) boid_to_update
           (limit_speed_boid (boid_max_speed self) (time_per_frame self) b))
  end.

(** *** The classification scan of [Flock::update_boid] *)

Record Scan := mkScan {
  total_x_dist_of_crowding_boids : R;
  total_y_dist_of_crowding_boids : R;
  num_crowding_boids : nat;
  total_of_local_boids : Boid;
  num_local_boids : nat;
}.

Definition scan_init : Scan := mkScan 0 0 0 (Boid_new 0 0 0 0) 0.

(** One iteration of the loop body for a neighbour [other_boid]. *)
Definition classify_step (me : Boid) (crowd_dist local_dist : R)
    (st : Scan) (other_boid : Boid) : Scan :=
  if is_crowded_by_boid me other_boid crowd_dist then
    mkScan (total_x_dist_of_crowding_boids st + x_pos other_boid)
           (total_y_dist_of_crowding_boids st + y_pos other_boid)
           (S (num_crowding_boids st))
           (total_of_local_boids st) (num_local_boids st)
  else if is_within_sight_of_local_boid me other_boid local_dist then
    mkScan (total_x_dist_of_crowding_boids st) (total_y_dist_of_crowding_boids st)
           (num_crowding_boids st)
           (boid_add_assign (total_of_local_boids st) other_boid)
           (S (num_local_boids st))
  else st.

(** [for other_boid in &self.boids], with [boid_idx] counting from [0] and
    the agent being updated skipped. *)
Fixpoint classify_from (me : Boid) (crowd_dist local_dist : R)
    (boid_to_update boid_idx : nat) (bs : list Boid) (st : Scan) : Scan :=
  match bs with
  | [] => st
  | other_boid :: bs' =>
      if Nat.eqb boid_idx boid_to_update
      then classify_from me crowd_dist local_dist boid_to_update (S boid_idx) bs' st
      else classify_from me crowd_dist local_dist boid_to_update (S boid_idx) bs'
             (classify_step me crowd_dist local_dist st other_boid)
  end.

Definition classify (self : Flock) (me : Boid) (boid_to_update : nat) : Scan :=
  classify_from me (max_dist_before_boid_is_no_longer_crowded self)
    (max_dist_of_local_boid self) boid_to_update 0 (boids self) scan_init.

(** Rule phase of [Flock::update_boid] (up to the call of [limit_speed]):
    the agent is threaded through the steps that each overwrite
    [self.boids[boid_to_update]]. *)
Definition apply_rules (self : Flock) (me : Boid) (st : Scan) : Boid :=
  let tpf := time_per_frame self in
  let nc := num_crowding_boids st in
  let nl := num_local_boids st in
  let b1 :=
    if (0 <? nc)%nat then
      uncrowd_boid me nc (total_x_dist_of_crowding_boids st)
        (total_y_dist_of_crowding_boids st) (repulsion_factor self) tpf
    else me in
  let b2 :=
    if (0 <? nl)%nat then
      cohere_boid self
        (align_boid b1 nl (x_vel (total_of_local_boids st))
           (y_vel (total_of_local_boids st)) (adhesion_factor self) tpf)
        nl (x_pos (total_of_local_boids st)) (y_pos (total_of_local_boids st))
    else b1 in
  if ((nl =? 0)%nat && (nc =? 0)%nat)%bool then
    {| x_vel := x_vel b2;
       y_vel := y_vel b2;
       x_pos := x_pos b2 + x_vel b2 * tpf;
       y_pos := y_pos b2 + y_vel b2 * tpf |}
  else b2.

(** The whole per-agent update on the agent. *)
Definition update_agent (self : Flock) (me : Boid) (boid_to_update : nat) : Boid :=
  let b3 := apply_rules self me (classify self me boid_to_update) in
  let b4 := limit_speed_boid (boid_max_speed self) (time_per_frame self) b3 in
  maybe_reflect_off_boundaries b4 (frame_width self) (frame_height self)
    (time_per_frame self).

(** [Flock::update_boid]: panics ([None]) when the index is out of range. *)
Definition update_boid (self : Flock) (boid_to_update : nat) : option Flock :=
  match nth_error (boids self) boid_to_update with
  | None => None
  | Some me =>
      option_map (set_boids self)
        (vec_set (boids self) boid_to_update (update_agent self me boid_to_update))
  end.

(** ** The earlier coordinator revision in boids.rs *)

Module BoidsRs.

(** [struct Flock] of boids.rs: [time_per_frame], [frame_width] and
    [frame_height] are [i32]. *)
Record Flock := mkFlock {
  boids : list Boid;
  max_dist_before_boid_is_no_longer_crowded : R;
  max_dist_of_local_boid : R;
  repulsion_factor : R;
  adhesion_factor : R;
  cohesion_factor : R;
  time_per_frame : Z;
  frame_width : Z;
  frame_height : Z;
}.

Definition set_boids (f : Flock) (bs : list Boid) : Flock :=
  mkFlock bs (max_dist_before_boid_is_no_longer_crowded f) (max_dist_of_local_boid f)
    (repulsion_factor f) (adhesion_factor f) (cohesion_factor f)
    (time_per_frame f) (frame_width f) (frame_height f).

(** [Flock::align_boid] (boids.rs): the agent's velocity moves towards the
    local mean velocity by the adhesion factor, its position advances with
    the old velocity; [num_local_boids as f32] is [IZR]. *)
Definition align_boid (self : Flock) (boid_to_update : nat) (num_local_boids : Z)
    (total_x_vel_of_local_boids total_y_vel_of_local_boids : R) : option Flock :=
  match nth_error (boids self) boid_to_update with
  | None => None
  | Some b =>
      let average_x_vel := total_x_vel_of_local_boids / IZR num_local_boids in
      let average_y_vel := total_y_vel_of_local_boids / IZR num_local_boids in
      option_map (set_boids self)
        (vec_set (boids self) boid_to_update
           {| x_vel := x_vel b + (average_x_vel - x_vel b) * adhesion_factor self;
              y_vel := y_vel b + (average_y_vel - y_vel b) * adhesion_factor self;
              x_pos := x_pos b + x_vel b * IZR (time_per_frame self);
              y_pos := y_pos b + y_vel b * IZR (time_per_frame self) |})
  end.

(** [Flock::maybe_reflect_off_boundaries] (boids.rs): [(frame - 1) / 2] is
    [i32] division, which truncates ([Z.quot]); frames are [800] and [500]
    after [Flock::new], so [frame - 1] does not overflow. *)
Definition reflect_boid (self : Flock) (b : Boid) : Boid :=
  let b1 :=
    if f_ge (Rabs (x_pos b)) (IZR (Z.quot (frame_width self - 1) 2))
    then mkBoid (x_pos b) (y_pos b) (- x_vel b) (y_vel b) else b in
  if f_ge (Rabs (y_pos b1)) (IZR (Z.quot (frame_height self - 1) 2))
  then mkBoid (x_pos b1) (y_pos b1) (x_vel b1) (- y_vel b1) else b1.

Definition maybe_reflect_off_boundaries (self : Flock) (boid_to_update : nat)
    : option Flock :=
  match nth_error (boids self) boid_to_update with
  | None => None
  | Some b =>
      option_map (set_boids self) (vec_set (boids self) boid_to_update (reflect_boid self b))
  end.


(** [self.cohesion_factor = c] *)
Definition set_cohesion_factor (f : Flock) (c : R) : Flock :=
  mkFlock (boids f) (max_dist_before_boid_is_no_longer_crowded f) (max_dist_of_local_boid f)
    (repulsion_factor f) (adhesion_factor f) c
    (time_per_frame f) (frame_width f) (frame_height f).

(** [Flock::validate] (boids.rs). The [validate_factors],
    [validate_distances] and [check_float_between_zero_and_one] of boids.rs
    are the same code as validate.rs's, embedded above. *)
Definition validate (self : Flock) : result unit InvalidFlockConfig :=
  let errors0 := validate_factors (repulsion_factor self) (adhesion_factor self)
                   (cohesion_factor self) in
  let errors1 :=
    match validate_distances (max_dist_before_boid_is_no_longer_crowded self)
            (max_dist_of_local_boid self) with
    | Some creation_error => errors0 ++ [creation_error]
    | None => errors0
    end in
  if (0 <? List.length errors1)%nat then Err {| errors := errors1 |} else Ok tt.

(** [Flock::generate_boids(flock_size)] (an associated function here). *)
Definition generate_boids (flock_size : nat) : list Boid :=
  push_zero_boids flock_size [].

(** [Flock::init(&mut self, flock_size)] *)
Definition init (self : Flock) (flock_size : nat) : Flock :=
  set_boids self (generate_boids flock_size).

(** [Flock::new] (boids.rs): no [flock_size] field and no maximum speed;
    time per frame and frame size are the [i32] values [1], [800], [500]. *)
Definition Flock_new (flock_size : nat)
    (max_dist_before_boid_is_crowded max_dist_of_local_boid0
     repulsion_factor0 adhesion_factor0 cohesion_factor0 : R)
    : result Flock InvalidFlockConfig :=
  let flock := {|
    boids := [];
    max_dist_before_boid_is_no_longer_crowded := max_dist_before_boid_is_crowded;
    max_dist_of_local_boid := max_dist_of_local_boid0;
    repulsion_factor := repulsion_factor0;
    adhesion_factor := adhesion_factor0;
    cohesion_factor := cohesion_factor0;
    time_per_frame := 1%Z;
    frame_width := 800%Z;
    frame_height := 500%Z |} in
  match validate flock with
  | Err e => Err e
  | Ok _ => Ok (init flock flock_size)
  end.

(** [Flock::uncrowd_boid] (boids.rs): the velocity moves away from the mean
    position of the crowding agents by the repulsion factor; the position
    advances with the old velocity. *)
Definition uncrowd_boid (self : Flock) (boid_to_update : nat) (num_crowding_boids : Z)
    (total_x_dist total_y_dist : R) : option Flock :=
  match nth_error (boids self) boid_to_update with
  | None => None
  | Some b =>
      let dist_to_ave_x_pos_of_crowding_boids := x_pos b - total_x_dist / IZR num_crowding_boids in
      let dist_to_ave_y_pos_of_crowding_boids := y_pos b - total_y_dist / IZR num_crowding_boids in
      option_map (set_boids self)
        (vec_set (boids self) boid_to_update
           {| x_vel := x_vel b + dist_to_ave_x_pos_of_crowding_boids * repulsion_factor self;
              y_vel := y_vel b + dist_to_ave_y_pos_of_crowding_boids * repulsion_factor self;
              x_pos := x_pos b + x_vel b * IZR (time_per_frame self);
              y_pos := y_pos b + y_vel b * IZR (time_per_frame self) |})
  end.

(** [Flock::cohere_boid] (boids.rs): the body is a [todo] and does nothing. *)
Definition cohere_boid (self : Flock) (boid_to_update : nat) (num_local_boids : Z)
    (total_x_dist total_y_dist : R) : option Flock :=
  Some self.

(** The "unaffected" branch of [Flock::update_boid] (boids.rs). *)
Definition continue_boid (self : Flock) (boid_to_update : nat) : option Flock :=
  match nth_error (boids self) boid_to_update with
  | None => None
  | Some b =>
      option_map (set_boids self)
        (vec_set (boids self) boid_to_update
           {| x_vel := x_vel b;
              y_vel := y_vel b;
              x_pos := x_pos b + x_vel b * IZR (time_per_frame self);
              y_pos := y_pos b + y_vel b * IZR (time_per_frame self) |})
  end.

(** [Flock::update_boid] (boids.rs). The scan is the loop of flock.rs
    ([classify_from]); its [i32] counters are [Z.of_nat] of the counts. An
    index out of range panics: in the loop when there is another agent,
    otherwise in the "unaffected" branch. *)
Definition update_boid (self : Flock) (boid_to_update : nat) : option Flock :=
  match nth_error (boids self) boid_to_update with
  | None => None
  | Some me =>
      let st := classify_from me (max_dist_before_boid_is_no_longer_crowded self)
                  (max_dist_of_local_boid self) boid_to_update 0 (boids self) scan_init in
      let num_crowding := Z.of_nat (num_crowding_boids st) in
      let num_local := Z.of_nat (num_local_boids st) in
      let total_local := total_of_local_boids st in
      match (if (0 <? num_crowding)%Z
             then uncrowd_boid self boid_to_update num_crowding
                    (total_x_dist_of_crowding_boids st) (total_y_dist_of_crowding_boids st)
             else Some self) with
      | None => None
      | Some f1 =>
          match (if (0 <? num_local)%Z
                 then match align_boid f1 boid_to_update num_local
                              (x_vel total_local) (y_vel total_local) with
                      | None => None
                      | Some f => cohere_boid f boid_to_update num_local
                                    (x_pos total_local) (y_pos total_local)
                      end
                 else Some f1) with
          | None => None
          | Some f2 =>
              match (if ((num_local =? 0)%Z && (num_crowding =? 0)%Z)%bool
                     then continue_boid f2 boid_to_update else Some f2) with
              | None => None
              | Some f3 => maybe_reflect_off_boundaries f3 boid_to_update
              end
          end
      end
  end.

End BoidsRs.

(** ** The first coordinator (main.rs)

    All quantities are [i32]. Arithmetic is that of a debug build: a result
    outside the [i32] range panics ([None]), [/] truncates and panics on a
    zero divisor, and [abs] of [i32::MIN] panics. *)

Module MainRs.

Definition i32_min : Z := - 2 ^ 31.
Definition i32_max : Z := 2 ^ 31 - 1.

Definition checked (z : Z) : option Z :=
  if ((i32_min <=? z) && (z <=? i32_max))%Z%bool then Some z else None.

Definition add (a b : Z) : option Z := checked (a + b).
Definition sub (a b : Z) : option Z := checked (a - b).
Definition mul (a b : Z) : option Z := checked (a * b).
Definition div (a b : Z) : option Z := if (b =? 0)%Z then None else checked (Z.quot a b).
Definition abs (a : Z) : option Z := checked (Z.abs a).

Notation "'let?' x ':=' e 'in' k" :=
  (match e with Some x => k | None => None end)
  (at level 200, x name, e at level 100, k at level 200).

Record Boid := mkBoid {
  x_pos : Z;
  y_pos : Z;
  x_vel : Z;
  y_vel : Z;
}.

Record Flock := mkFlock {
  boids : list Boid;
  max_dist_before_boid_is_crowded : Z;
  max_dist_of_local_boid : Z;
}.

Definition set_boids (f : Flock) (bs : list Boid) : Flock :=
  mkFlock bs (max_dist_before_boid_is_crowded f) (max_dist_of_local_boid f).

(** [Flock::generate_boids]: [flock_size] agents [Boid::new(0, 0, 0, 0)]. *)
Fixpoint push_zero_boids (n : nat) (acc : list Boid) : list Boid :=
  match n with
  | O => acc
  | S n' => push_zero_boids n' (acc ++ [mkBoid 0 0 0 0])
  end.

Definition generate_boids (flock_size : nat) : list Boid := push_zero_boids flock_size [].

(** [Flock::new] (main.rs): no validation. *)
Definition Flock_new (flock_size : nat) (max_dist_before_boid_is_crowded0
    max_dist_of_local_boid0 : Z) : Flock :=
  mkFlock (generate_boids flock_size) max_dist_before_boid_is_crowded0 max_dist_of_local_boid0.

(** [Boid::is_crowded_by_boid]: [&&] evaluates its right operand only when
    the left one holds. *)
Definition is_crowded_by_boid (self other_boid : Boid) (max_dist : Z) : option bool :=
  let? dx := sub (x_pos self) (x_pos other_boid) in
  let? ax := abs dx in
  if (ax <? max_dist)%Z then
    let? dy := sub (y_pos self) (y_pos other_boid) in
    let? ay := abs dy in
    Some (ay <? max_dist)%Z
  else Some false.

(** [Flock::uncrowd_boid] (main.rs), with [time_per_frame = 1]. *)
Definition uncrowd_boid (self : Flock) (boid_to_update : nat)
    (repulsion_from_close_boids num_crowding_boids total_x_dist_of_crowding_boids
     total_y_dist_of_crowding_boids : Z) : option Flock :=
  let? b := nth_error (boids self) boid_to_update in
  let? ax := div total_x_dist_of_crowding_boids num_crowding_boids in
  let? dist_to_ave_x := sub (x_pos b) ax in
  let? ay := div total_y_dist_of_crowding_boids num_crowding_boids in
  let? dist_to_ave_y := sub (y_pos b) ay in
  let time_per_frame := 1%Z in
  let? mx := mul (x_vel b) time_per_frame in
  let? nx := add (x_pos b) mx in
  let? my := mul (y_vel b) time_per_frame in
  let? ny := add (y_pos b) my in
  let? rx := mul dist_to_ave_x repulsion_from_close_boids in
  let? vx := add (x_vel b) rx in
  let? ry := mul dist_to_ave_y repulsion_from_close_boids in
  let? vy := add (y_vel b) ry in
  option_map (set_boids self) (vec_set (boids self) boid_to_update (mkBoid nx ny vx vy)).

(** The loop of [Flock::update_boid] (main.rs) from [boid_idx] on, with the
    running count and position sums. *)
Fixpoint scan (self : Flock) (boid_to_update boid_idx : nat) (bs : list Boid)
    (num total_x total_y : Z) : option (Z * Z * Z) :=
  match bs with
  | [] => Some (num, total_x, total_y)
  | other_boid :: bs' =>
      if Nat.eqb boid_idx boid_to_update
      then scan self boid_to_update (S boid_idx) bs' num total_x total_y
      else
        let? me := nth_error (boids self) boid_to_update in
        let? c := is_crowded_by_boid me other_boid (max_dist_before_boid_is_crowded self) in
        if c then
          let? num' := add num 1 in
          let? total_x' := add total_x (x_pos other_boid) in
          let? total_y' := add total_y (y_pos other_boid) in
          scan self boid_to_update (S boid_idx) bs' num' total_x' total_y'
        else scan self boid_to_update (S boid_idx) bs' num total_x total_y
  end.

(** [Flock::update_boid] (main.rs) *)
Definition update_boid (self : Flock) (boid_to_update : nat)
    (repulsion_from_close_boids : Z) : option Flock :=
  match scan self boid_to_update 0 (boids self) 0 0 0 with
  | None => None
  | Some (num, total_x, total_y) =>
      if (0 <? num)%Z
      then uncrowd_boid self boid_to_update repulsion_from_close_boids num total_x total_y
      else Some self
  end.

End MainRs.

(** ** Configurations used by the development *)

(** The errors a construction call reports: the factor checks in order,
    then the distance check. *)
Definition config_errors (cr lr r a c : R) : list CreationError :=
  filter_map_id
    ([check_float_between_zero_and_one r "repulsion";
      check_float_between_zero_and_one a "adhesion";
      check_float_between_zero_and_one c "cohesion"] ++ [validate_distances cr lr]).

(** Integers whose differences stay within [i32] range. *)
Definition i32_half_range (z : Z) : Prop := (Z.abs z < 2 ^ 30)%Z.

(** The flock of the boids.rs alignment tests, with a given adhesion factor. *)
Definition align_test_flock (adhesion : R) : BoidsRs.Flock :=
  BoidsRs.mkFlock [Boid_new 1.0 1.0 1.0 5.0; Boid_new 3.0 3.0 10.0 1000.0;
                   Boid_new 5.0 5.0 10.0 (-1000.0)]
    1.0 50.0 0.0 adhesion 0.0 1 800 500.

Lemma f_lt_spec a b : f_lt a b = true <-> a < b.
Proof. unfold f_lt; destruct (Rlt_dec a b); split; intros; auto; congruence. Qed.

Lemma f_le_spec a b : f_le a b = true <-> a <= b.
Proof. unfold f_le; destruct (Rle_dec a b); split; intros; auto; congruence. Qed.

Lemma f_lt_false a b : f_lt a b = false <-> b <= a.
Proof.
  unfold f_lt; destruct (Rlt_dec a b); split; intros; try congruence; lra.
Qed.

Lemma f_le_false a b : f_le a b = false <-> b < a.
Proof.
  unfold f_le; destruct (Rle_dec a b); split; intros; try congruence; lra.
Qed.

(** ** Helper lemmas *)

Ltac cmp_cases :=
  unfold f_gt, f_ge in *;
  repeat match goal with
  | |- context [f_lt ?a ?b] =>
      let H := fresh "Hc" in
      destruct (f_lt a b) eqn:H; [apply f_lt_spec in H | apply f_lt_false in H]
  | |- context [f_le ?a ?b] =>
      let H := fresh "Hc" in
      destruct (f_le a b) eqn:H; [apply f_le_spec in H | apply f_le_false in H]
  end.

Lemma nth_error_vec_set {A} (l : list A) i a b :
  nth_error l i = Some b ->
  exists l', vec_set l i a = Some l' /\ nth_error l' i = Some a /\
             List.length l' = List.length l.
Proof.
  revert i; induction l as [|x l IH]; intros [|i] H; simpl in *; try discriminate.
  - eexists; repeat split; reflexivity.
  - destruct (IH i H) as (l' & E & N & L). rewrite E; simpl.
    eexists; repeat split; auto. simpl; congruence.
Qed.

Lemma vec_set_singleton {A} (x a : A) : vec_set [x] 0 a = Some [a].
Proof. reflexivity. Qed.

Lemma push_zero_boids_repeat n acc :
  push_zero_boids n acc = acc ++ repeat (Boid_new 0 0 0 0) n.
Proof.
  revert acc; induction n as [|n IH]; intros acc; simpl.
  - now rewrite List.app_nil_r.
  - rewrite IH, <- app_assoc. reflexivity.
Qed.

(** ** Claims *)

(** Decides each comparison of concrete reals in the goal with [lra]. *)
Ltac eval_cmp :=
  unfold f_gt, f_ge in *;
  repeat match goal with
  | |- context [f_lt ?a ?b] =>
      first [ rewrite (proj2 (f_lt_spec a b)) by lra
            | rewrite (proj2 (f_lt_false a b)) by lra ]
  | |- context [f_le ?a ?b] =>
      first [ rewrite (proj2 (f_le_spec a b)) by lra
            | rewrite (proj2 (f_le_false a b)) by lra ]
  end.

Lemma check_float_cases v name :
  check_float_between_zero_and_one v name = None \/
  check_float_between_zero_and_one v name = Some (FactorShouldBeMoreThanZero name) \/
  check_float_between_zero_and_one v name = Some (FactorShouldBeLessThanOne name).
Proof.
  unfold check_float_between_zero_and_one, f_gt.
  destruct (f_lt v 0); [|destruct (f_lt 1 v)]; auto.
Qed.

Lemma check_float_below v name :
  check_float_between_zero_and_one v name = Some (FactorShouldBeMoreThanZero name) <-> v < 0.
Proof.
  unfold check_float_between_zero_and_one; cmp_cases; split; intros;
    try discriminate; try reflexivity; lra.
Qed.

Lemma check_float_above v name :
  check_float_between_zero_and_one v name = Some (FactorShouldBeLessThanOne name) <-> 1 < v.
Proof.
  unfold check_float_between_zero_and_one; cmp_cases; split; intros;
    try discriminate; try reflexivity; lra.
Qed.

Lemma validate_distances_cases cr lr :
  (validate_distances cr lr = Some LocalEnvironmentIsSmallerThanCrowdingEnvironment /\ lr <= cr) \/
  (validate_distances cr lr = None /\ cr < lr).
Proof. unfold validate_distances; cmp_cases; [left|right]; auto. Qed.

Lemma filter_map_id_app {A} (l1 l2 : list (option A)) :
  filter_map_id (l1 ++ l2) = filter_map_id l1 ++ filter_map_id l2.
Proof. induction l1 as [|[x|] l1 IH]; simpl; try rewrite IH; reflexivity. Qed.

Lemma in_filter_map_id {A} (l : list (option A)) x :
  In x (filter_map_id l) <-> In (Some x) l.
Proof.
  induction l as [|[y|] l IH]; simpl; [tauto| |].
  - rewrite IH; split; intros [H|H]; auto; left; congruence.
  - rewrite IH; split; [auto|intros [H|H]; [discriminate|auto]].
Qed.

Lemma validate_config_errors (f : Flock) :
  validate f =
  let es := config_errors (max_dist_before_boid_is_no_longer_crowded f)
              (max_dist_of_local_boid f) (repulsion_factor f) (adhesion_factor f)
              (cohesion_factor f) in
  if (0 <? List.length es)%nat then Err {| errors := es |} else Ok tt.
Proof.
  unfold validate, config_errors, validate_factors. rewrite filter_map_id_app.
  destruct (validate_distances _ _); cbn [filter_map_id];
    [reflexivity | rewrite List.app_nil_r; reflexivity].
Qed.

Lemma Flock_new_errors n cr lr r a c :
  match Flock_new n cr lr r a c with
  | Err e => errors e = config_errors cr lr r a c /\ config_errors cr lr r a c <> []
  | Ok f => config_errors cr lr r a c = []
  end.
Proof.
  unfold Flock_new. rewrite validate_config_errors. cbn [max_dist_before_boid_is_no_longer_crowded max_dist_of_local_boid repulsion_factor adhesion_factor cohesion_factor].
  destruct (config_errors cr lr r a c) as [|e es]; simpl.
  - reflexivity.
  - split; [reflexivity|discriminate].
Qed.

Lemma check_float_trichotomy v name :
  (check_float_between_zero_and_one v name = None /\ 0 <= v <= 1) \/
  (check_float_between_zero_and_one v name = Some (FactorShouldBeMoreThanZero name) /\ v < 0) \/
  (check_float_between_zero_and_one v name = Some (FactorShouldBeLessThanOne name) /\ 1 < v).
Proof.
  unfold check_float_between_zero_and_one; cmp_cases; auto;
  try (left; split; [reflexivity|lra]).
Qed.

Lemma Flock_new_reported n cr lr r a c :
  match Flock_new n cr lr r a c with Err e => errors e | Ok _ => [] end =
  config_errors cr lr r a c.
Proof.
  pose proof (Flock_new_errors n cr lr r a c) as H.
  destruct (Flock_new n cr lr r a c); [symmetry; exact H | apply H].
Qed.

(** C1: validation of a construction call collects every applicable violation
    into one [InvalidFlockConfig] without short-circuiting: each factor is
    reported below zero exactly when negative and above one exactly when
    greater than one, the environment error is present exactly when the
    crowding radius is at least the local radius, no error is repeated; and on
    the concrete inputs, [(2.0, -4.9, 1.0)] gives exactly the repulsion and
    adhesion errors, crowding radius [20.0 >= 2.0] adds the environment error,
    and four bad inputs give four errors. *)
Theorem Flock_new_collects_all_errors :
  (forall n cr lr r a c,
     let es := match Flock_new n cr lr r a c with Err e => errors e | Ok _ => [] end in
     (In (FactorShouldBeMoreThanZero "repulsion") es <-> r < 0) /\
     (In (FactorShouldBeLessThanOne "repulsion") es <-> 1 < r) /\
     (In (FactorShouldBeMoreThanZero "adhesion") es <-> a < 0) /\
     (In (FactorShouldBeLessThanOne "adhesion") es <-> 1 < a) /\
     (In (FactorShouldBeMoreThanZero "cohesion") es <-> c < 0) /\
     (In (FactorShouldBeLessThanOne "cohesion") es <-> 1 < c) /\
     (In LocalEnvironmentIsSmallerThanCrowdingEnvironment es <-> lr <= cr) /\
     NoDup es) /\
  (exists e, Flock_new 0 1.0 50.0 2.0 (-4.9) 1.0 = Err e /\
     errors e = [FactorShouldBeLessThanOne "repulsion";
                 FactorShouldBeMoreThanZero "adhesion"]) /\
  (exists e, Flock_new 0 20.0 2.0 2.0 (-20.2) 1.0 = Err e /\
     errors e = [FactorShouldBeLessThanOne "repulsion";
                 FactorShouldBeMoreThanZero "adhesion";
                 LocalEnvironmentIsSmallerThanCrowdingEnvironment]) /\
  (exists e, Flock_new 0 2.0 (-4.9) 3.0 20.0 2.0 = Err e /\
     List.length (errors e) = 4%nat).
Proof.
  split; [|split; [|split]].
  - intros n cr lr r a c es; subst es; rewrite Flock_new_reported.
    unfold config_errors.
    destruct (check_float_trichotomy r "repulsion") as [[E1 H1]|[[E1 H1]|[E1 H1]]];
    destruct (check_float_trichotomy a "adhesion") as [[E2 H2]|[[E2 H2]|[E2 H2]]];
    destruct (check_float_trichotomy c "cohesion") as [[E3 H3]|[[E3 H3]|[E3 H3]]];
    destruct (validate_distances_cases cr lr) as [[E4 H4]|[E4 H4]];
    rewrite E1, E2, E3, E4; cbn [filter_map_id app In];
    (repeat split; intros;
     repeat match goal with H : _ \/ _ |- _ => destruct H end;
     try discriminate; try lra; try tauto;
     repeat constructor; cbn [In]; intuition discriminate).
  - unfold Flock_new; rewrite validate_config_errors; unfold config_errors,
      check_float_between_zero_and_one, validate_distances;
    cbn [max_dist_before_boid_is_no_longer_crowded max_dist_of_local_boid
         repulsion_factor adhesion_factor cohesion_factor]; eval_cmp.
    eexists; split; reflexivity.
  - unfold Flock_new; rewrite validate_config_errors; unfold config_errors,
      check_float_between_zero_and_one, validate_distances;
    cbn [max_dist_before_boid_is_no_longer_crowded max_dist_of_local_boid
         repulsion_factor adhesion_factor cohesion_factor]; eval_cmp.
    eexists; split; reflexivity.
  - unfold Flock_new; rewrite validate_config_errors; unfold config_errors,
      check_float_between_zero_and_one, validate_distances;
    cbn [max_dist_before_boid_is_no_longer_crowded max_dist_of_local_boid
         repulsion_factor adhesion_factor cohesion_factor]; eval_cmp.
    eexists; split; reflexivity.
Qed.

Lemma config_errors_nil_iff cr lr r a c :
  config_errors cr lr r a c = [] <->
  (0 <= r <= 1 /\ 0 <= a <= 1 /\ 0 <= c <= 1 /\ cr < lr).
Proof.
  unfold config_errors.
  destruct (check_float_trichotomy r "repulsion") as [[E1 H1]|[[E1 H1]|[E1 H1]]];
  destruct (check_float_trichotomy a "adhesion") as [[E2 H2]|[[E2 H2]|[E2 H2]]];
  destruct (check_float_trichotomy c "cohesion") as [[E3 H3]|[[E3 H3]|[E3 H3]]];
  destruct (validate_distances_cases cr lr) as [[E4 H4]|[E4 H4]];
  rewrite E1, E2, E3, E4; cbn [filter_map_id app];
  split; intros; try discriminate; try reflexivity; lra.
Qed.

(** C7: construction is atomic with respect to validation: when the
    configuration is invalid, [Flock::new] returns the (non-empty) error list
    and no flock at all; when it is valid, it returns a flock holding exactly
    [flock_size] agents, each at position (0,0) with velocity (0,0). *)
Theorem Flock_new_atomic n cr lr r a c :
  match Flock_new n cr lr r a c with
  | Err e =>
      ~ (0 <= r <= 1 /\ 0 <= a <= 1 /\ 0 <= c <= 1 /\ cr < lr) /\ errors e <> []
  | Ok f =>
      (0 <= r <= 1 /\ 0 <= a <= 1 /\ 0 <= c <= 1 /\ cr < lr) /\
      boids f = repeat (Boid_new 0 0 0 0) n /\ flock_size f = n
  end.
Proof.
  pose proof (Flock_new_errors n cr lr r a c) as H.
  destruct (Flock_new n cr lr r a c) as [f|e] eqn:E.
  - split; [apply config_errors_nil_iff; exact H|].
    unfold Flock_new in E. destruct (validate _); inversion E; subst f.
    simpl. unfold generate_boids; simpl. rewrite push_zero_boids_repeat. auto.
  - destruct H as [He Hne]. split.
    + rewrite <- config_errors_nil_iff. exact Hne.
    + rewrite He. exact Hne.
Qed.

(** ** Speed limiting *)

Lemma limit_speed_boid_vel m t b :
  0 <= m ->
  let b' := limit_speed_boid m t b in
  x_vel b' ^ 2 + y_vel b' ^ 2 <= m ^ 2 /\
  (sqrt (x_vel b ^ 2 + y_vel b ^ 2) <= m -> x_vel b' = x_vel b /\ y_vel b' = y_vel b).
Proof.
  intros Hm b'; subst b'. unfold limit_speed_boid; cbv zeta.
  set (s2 := x_vel b ^ 2 + y_vel b ^ 2).
  assert (Hs2 : 0 <= s2) by (subst s2; nra).
  pose proof (sqrt_sqrt s2 Hs2) as Hss.
  pose proof (sqrt_pos s2) as Hsp.
  unfold f_gt; cmp_cases; cbn [x_vel y_vel].
  - split; [|intros; lra].
    assert (Hpos : 0 < sqrt s2) by lra.
    replace ((x_vel b / sqrt s2 * m) ^ 2 + (y_vel b / sqrt s2 * m) ^ 2)
      with (s2 / (sqrt s2 * sqrt s2) * m ^ 2)
      by (subst s2; field; lra).
    assert (0 < s2) by (rewrite <- Hss; nra).
    rewrite Hss. unfold Rdiv. rewrite Rinv_r by lra. lra.
  - split; [|auto].
    assert (sqrt s2 ^ 2 <= m ^ 2) by (apply pow_incr; lra).
    replace (sqrt s2 ^ 2) with s2 in * by (simpl; lra). fold s2. lra.
Qed.

Lemma speed_le_of_sq b m :
  0 <= m -> x_vel b ^ 2 + y_vel b ^ 2 <= m ^ 2 -> speed b <= m.
Proof.
  intros Hm H. unfold speed.
  rewrite <- (sqrt_pow2 m Hm). apply sqrt_le_1_alt. exact H.
Qed.

Lemma speed_limit_speed_boid m t b :
  0 <= m -> speed (limit_speed_boid m t b) <= m.
Proof.
  intros Hm. apply speed_le_of_sq; [exact Hm|].
  apply (limit_speed_boid_vel m t b Hm).
Qed.

(** The boundary reflection called by [Flock::update_boid] negates velocity
    components only. *)
Lemma reflect_speed b w h t :
  speed (maybe_reflect_off_boundaries b w h t) = speed b.
Proof.
  unfold speed, maybe_reflect_off_boundaries; simpl.
  destruct (_ || _)%bool; destruct (_ || _)%bool; simpl; f_equal; ring.
Qed.

Lemma Flock_new_max_speed n cr lr r a c f :
  Flock_new n cr lr r a c = Ok f -> boid_max_speed f = 8.0 /\ time_per_frame f = 1.0.
Proof.
  unfold Flock_new; destruct (validate _); intros E; inversion E; subst; auto.
Qed.

Lemma update_boid_at f i b :
  nth_error (boids f) i = Some b ->
  exists f', update_boid f i = Some f' /\ boids f' <> [] /\
             nth_error (boids f') i = Some (update_agent f b i) /\
             boid_max_speed f' = boid_max_speed f.
Proof.
  intros H. unfold update_boid. rewrite H.
  destruct (nth_error_vec_set (boids f) i (update_agent f b i) b H) as (l' & E & N & L).
  rewrite E. simpl. exists (set_boids f l'). unfold set_boids; cbn [boids boid_max_speed].
  repeat split; auto.
  intro Hn; rewrite Hn in N; destruct i; discriminate.
Qed.

(** C2: for a flock produced by a valid construction, whatever its agents
    have become, and any in-range index, the update of that agent terminates
    normally and leaves its Euclidean speed at most the configured maximum. *)
Theorem update_boid_speed_bounded n cr lr r a c f0 bs i :
  Flock_new n cr lr r a c = Ok f0 ->
  (i < List.length bs)%nat ->
  exists f' b', update_boid (set_boids f0 bs) i = Some f' /\
                nth_error (boids f') i = Some b' /\
                speed b' <= boid_max_speed f0.
Proof.
  intros Hnew Hi.
  destruct (proj1 (Flock_new_max_speed _ _ _ _ _ _ _ Hnew)) as [].
  destruct (nth_error bs i) as [b|] eqn:Hb;
    [|apply nth_error_None in Hb; lia].
  destruct (update_boid_at (set_boids f0 bs) i b Hb) as (f' & U & _ & N & _).
  exists f', (update_agent (set_boids f0 bs) b i). repeat split; auto.
  unfold update_agent. rewrite reflect_speed.
  apply speed_limit_speed_boid. simpl. rewrite (proj1 (Flock_new_max_speed _ _ _ _ _ _ _ Hnew)). lra.
Qed.

Lemma Flock_new_valid_example :
  exists f0, Flock_new 1 1.0 50.0 0.5 0.5 0.5 = Ok f0.
Proof.
  unfold Flock_new; rewrite validate_config_errors; unfold config_errors,
    check_float_between_zero_and_one, validate_distances;
  cbn [max_dist_before_boid_is_no_longer_crowded max_dist_of_local_boid
       repulsion_factor adhesion_factor cohesion_factor]; eval_cmp.
  eexists; reflexivity.
Qed.

Lemma update_boid_speed_bounded_witness :
  exists f0, Flock_new 1 1.0 50.0 0.5 0.5 0.5 = Ok f0 /\
    exists f' b', update_boid (set_boids f0 [Boid_new 400 250 9 12]) 0 = Some f' /\
                  nth_error (boids f') 0 = Some b' /\
                  speed b' <= boid_max_speed f0.
Proof.
  destruct Flock_new_valid_example as [f0 Hf0].
  exists f0. split; [exact Hf0|].
  apply (update_boid_speed_bounded 1 1.0 50.0 0.5 0.5 0.5 f0 [Boid_new 400 250 9 12] 0 Hf0).
  simpl; lia.
Defined.

Lemma limit_speed_boid_slow m t b :
  speed b <= m ->
  limit_speed_boid m t b =
  mkBoid (x_pos b + x_vel b * t) (y_pos b + y_vel b * t) (x_vel b) (y_vel b).
Proof.
  intros Hs. unfold limit_speed_boid; cbv zeta; unfold f_gt.
  unfold speed in Hs. rewrite (proj2 (f_lt_false m _) Hs). reflexivity.
Qed.

(** Speed bound of a concrete agent: squares compared with [lra]. *)
Ltac slow_agent := apply speed_le_of_sq; simpl; lra.

(** C8: speed limiting is idempotent on the velocity: for every velocity
    and every non-negative maximum speed (the constructor fixes 8.0), the
    velocity produced by the rescaling step of [limit_speed] (by
    [max_speed / norm] iff the norm exceeds the maximum) is left unchanged by a
    second application; the second application only moves the agent once
    more by [vel * time_per_frame]. *)
Theorem limit_speed_velocity_idempotent m t b (Hm : 0 <= m) :
  let b1 := limit_speed_boid m t b in
  limit_speed_boid m t b1 =
  {| x_pos := x_pos b1 + x_vel b1 * t; y_pos := y_pos b1 + y_vel b1 * t;
     x_vel := x_vel b1; y_vel := y_vel b1 |}.
Proof.
  intros b1.
  assert (Hs : sqrt (x_vel b1 ^ 2 + y_vel b1 ^ 2) <= m).
  { apply (speed_le_of_sq b1 m Hm). apply (limit_speed_boid_vel m t b Hm). }
  unfold limit_speed_boid at 1; cbv zeta; unfold f_gt.
  rewrite (proj2 (f_lt_false m _) Hs). reflexivity.
Qed.

Lemma limit_speed_velocity_idempotent_witness :
  0 <= 8 /\
  let b1 := limit_speed_boid 8 1 (Boid_new 0 0 30 40) in
  limit_speed_boid 8 1 b1 =
  {| x_pos := x_pos b1 + x_vel b1 * 1; y_pos := y_pos b1 + y_vel b1 * 1;
     x_vel := x_vel b1; y_vel := y_vel b1 |}.
Proof.
  split; [lra|]. apply limit_speed_velocity_idempotent. lra.
Defined.

Lemma nth_error_vec_set_other {A} (l : list A) i a l' j :
  vec_set l i a = Some l' -> j <> i -> nth_error l' j = nth_error l j.
Proof.
  revert i l' j; induction l as [|x l IH]; intros [|i] l' [|j] E Hj; simpl in *;
    try discriminate; try (injection E as <-; simpl; try reflexivity; lia).
  - destruct (vec_set l i a) eqn:E'; simpl in E; [|discriminate].
    injection E as <-; reflexivity.
  - destruct (vec_set l i a) eqn:E'; simpl in E; [|discriminate].
    injection E as <-; simpl. apply (IH i); auto.
Qed.

(** ** The boids.rs revision *)

(** C3: for every agent and every positive local-neighbour count,
    [align_boid] of boids.rs sets the agent's velocity to
    [vel + (total_vel / count - vel) * adhesion_factor] on each axis. *)
Theorem align_boid_formula (f : BoidsRs.Flock) i b n tvx tvy
    (Hi : nth_error (BoidsRs.boids f) i = Some b) (Hn : (0 < n)%Z) :
  exists f' b',
    BoidsRs.align_boid f i n tvx tvy = Some f' /\
    nth_error (BoidsRs.boids f') i = Some b' /\
    x_vel b' = x_vel b + (tvx / IZR n - x_vel b) * BoidsRs.adhesion_factor f /\
    y_vel b' = y_vel b + (tvy / IZR n - y_vel b) * BoidsRs.adhesion_factor f.
Proof.
  unfold BoidsRs.align_boid. rewrite Hi. cbv zeta.
  match goal with |- context [vec_set _ _ ?nb] =>
    destruct (nth_error_vec_set (BoidsRs.boids f) i nb b Hi) as (l' & E & N & _);
    rewrite E; exists (BoidsRs.set_boids f l'), nb end.
  repeat split; auto.
Qed.

(** The tests' instances: two local neighbours with summed velocity (20,0);
    adhesion 1.0, 0.0 and 0.5 give (10,0), (1,5) and (5.5,2.5). *)
Lemma align_boid_formula_witness :
  (exists f' b', BoidsRs.align_boid (align_test_flock 1.0) 0 2 20.0 0.0 = Some f' /\
     nth_error (BoidsRs.boids f') 0 = Some b' /\ x_vel b' = 10.0 /\ y_vel b' = 0.0) /\
  (exists f' b', BoidsRs.align_boid (align_test_flock 0.0) 0 2 20.0 0.0 = Some f' /\
     nth_error (BoidsRs.boids f') 0 = Some b' /\ x_vel b' = 1.0 /\ y_vel b' = 5.0) /\
  (exists f' b', BoidsRs.align_boid (align_test_flock 0.5) 0 2 20.0 0.0 = Some f' /\
     nth_error (BoidsRs.boids f') 0 = Some b' /\ x_vel b' = 5.5 /\ y_vel b' = 2.5).
Proof.
  split; [|split];
  match goal with |- exists f' b', BoidsRs.align_boid (align_test_flock ?a) _ _ _ _ = _ /\ _ =>
    destruct (align_boid_formula (align_test_flock a) 0 (Boid_new 1.0 1.0 1.0 5.0)
                2 20.0 0.0 eq_refl ltac:(lia)) as (f' & b' & E & N & X & Y);
    exists f', b'; repeat split; [exact E | exact N | rewrite X | rewrite Y];
    cbn [x_vel y_vel Boid_new BoidsRs.adhesion_factor align_test_flock]; lra
  end.
Defined.

(** C10: for every agent, the boundary reflection of boids.rs leaves both
    position components as they are and changes at most the signs of the
    velocity components (their absolute values are kept), touches no other
    agent, and so preserves the Euclidean speed and any speed bound. *)
Theorem reflect_changes_only_velocity_signs (f : BoidsRs.Flock) i b
    (Hi : nth_error (BoidsRs.boids f) i = Some b) :
  exists f' b',
    BoidsRs.maybe_reflect_off_boundaries f i = Some f' /\
    nth_error (BoidsRs.boids f') i = Some b' /\
    x_pos b' = x_pos b /\ y_pos b' = y_pos b /\
    (x_vel b' = x_vel b \/ x_vel b' = - x_vel b) /\
    (y_vel b' = y_vel b \/ y_vel b' = - y_vel b) /\
    Rabs (x_vel b') = Rabs (x_vel b) /\ Rabs (y_vel b') = Rabs (y_vel b) /\
    (forall j, j <> i -> nth_error (BoidsRs.boids f') j = nth_error (BoidsRs.boids f) j) /\
    speed b' = speed b /\
    (forall m, speed b <= m -> speed b' <= m).
Proof.
  unfold BoidsRs.maybe_reflect_off_boundaries. rewrite Hi.
  destruct (nth_error_vec_set (BoidsRs.boids f) i (BoidsRs.reflect_boid f b) b Hi)
    as (l' & E & N & _).
  rewrite E. exists (BoidsRs.set_boids f l'), (BoidsRs.reflect_boid f b).
  assert (Hv : x_pos (BoidsRs.reflect_boid f b) = x_pos b /\
               y_pos (BoidsRs.reflect_boid f b) = y_pos b /\
               (x_vel (BoidsRs.reflect_boid f b) = x_vel b \/
                x_vel (BoidsRs.reflect_boid f b) = - x_vel b) /\
               (y_vel (BoidsRs.reflect_boid f b) = y_vel b \/
                y_vel (BoidsRs.reflect_boid f b) = - y_vel b)).
  { unfold BoidsRs.reflect_boid;
      destruct (f_ge _ _); cbn [x_pos y_pos x_vel y_vel];
      destruct (f_ge _ _); cbn [x_pos y_pos x_vel y_vel]; intuition. }
  destruct Hv as (Hx & Hy & Hvx & Hvy).
  assert (Hs : speed (BoidsRs.reflect_boid f b) = speed b).
  { unfold speed. f_equal.
    destruct Hvx as [-> | ->]; destruct Hvy as [-> | ->]; ring. }
  repeat split; auto.
  - destruct Hvx as [-> | ->]; [reflexivity | apply Rabs_Ropp].
  - destruct Hvy as [-> | ->]; [reflexivity | apply Rabs_Ropp].
  - intros j Hj. apply (nth_error_vec_set_other _ _ _ _ _ E Hj).
  - intros m Hm. rewrite Hs. exact Hm.
Qed.

Lemma reflect_changes_only_velocity_signs_witness :
  exists f' b',
    BoidsRs.maybe_reflect_off_boundaries (align_test_flock 0.5) 2 = Some f' /\
    nth_error (BoidsRs.boids f') 2 = Some b' /\
    x_pos b' = 5.0 /\ y_pos b' = 5.0 /\ speed b' = speed (Boid_new 5.0 5.0 10.0 (-1000.0)).
Proof.
  destruct (reflect_changes_only_velocity_signs (align_test_flock 0.5) 2
              (Boid_new 5.0 5.0 10.0 (-1000.0)) eq_refl)
    as (f' & b' & E & N & X & Y & _ & _ & _ & _ & _ & S & _).
  exists f', b'. repeat split; auto.
Defined.

(** ** The classification scan *)

Section Scan.

Variables (me : Boid) (crowd_dist local_dist : R).

Lemma classify_from_past i k bs st :
  (i < k)%nat ->
  classify_from me crowd_dist local_dist i k bs st =
  fold_left (classify_step me crowd_dist local_dist) bs st.
Proof.
  revert k st; induction bs as [|b bs IH]; intros k st Hk; simpl; [reflexivity|].
  rewrite (proj2 (Nat.eqb_neq k i)) by lia. apply IH. lia.
Qed.

Lemma classify_from_shift i k bs st :
  classify_from me crowd_dist local_dist (S i) (S k) bs st =
  classify_from me crowd_dist local_dist i k bs st.
Proof.
  revert k st; induction bs as [|b bs IH]; intros k st; simpl; [reflexivity|].
  destruct (Nat.eqb k i); apply IH.
Qed.

Lemma classify_from_others i bs st :
  classify_from me crowd_dist local_dist i 0 bs st =
  fold_left (classify_step me crowd_dist local_dist) (firstn i bs ++ skipn (S i) bs) st.
Proof.
  revert i st; induction bs as [|b bs IH]; intros i st.
  - destruct i; reflexivity.
  - destruct i as [|i]; simpl.
    + apply classify_from_past. lia.
    + rewrite classify_from_shift. apply IH.
Qed.

Lemma fold_classify_step l st :
  fold_left (classify_step me crowd_dist local_dist) l st =
  let C := filter (fun o => is_crowded_by_boid me o crowd_dist) l in
  let L := filter (fun o => negb (is_crowded_by_boid me o crowd_dist) &&
                            is_within_sight_of_local_boid me o local_dist)%bool l in
  mkScan (fold_left (fun s o => s + x_pos o) C (total_x_dist_of_crowding_boids st))
         (fold_left (fun s o => s + y_pos o) C (total_y_dist_of_crowding_boids st))
         (num_crowding_boids st + List.length C)
         (fold_left boid_add_assign L (total_of_local_boids st))
         (num_local_boids st + List.length L).
Proof.
  revert st; induction l as [|o l IH]; intros st.
  - destruct st; simpl. rewrite !Nat.add_0_r. reflexivity.
  - cbn [fold_left filter]. rewrite IH. unfold classify_step.
    destruct (is_crowded_by_boid me o crowd_dist); cbn [negb andb];
      [|destruct (is_within_sight_of_local_boid me o local_dist)];
      cbn [List.length fold_left total_x_dist_of_crowding_boids
           total_y_dist_of_crowding_boids num_crowding_boids
           total_of_local_boids num_local_boids];
      f_equal; lia.
Qed.

End Scan.

Lemma is_crowded_by_boid_spec a o d :
  is_crowded_by_boid a o d = true <->
  Rabs (x_pos a - x_pos o) < d /\ Rabs (y_pos a - y_pos o) < d.
Proof.
  unfold is_crowded_by_boid. rewrite Bool.andb_true_iff, !f_lt_spec. tauto.
Qed.

(** C6: in the scan of [update_boid] for agent [i], every other agent is
    first tested with the strict axis-aligned crowding test; the crowding
    count and position sums are taken over exactly the crowding agents, and
    the local-flock count and sum over exactly the agents that are not
    crowding but within the local radius, so no neighbour feeds both
    aggregates and crowding takes priority; the rule phase of the update uses
    this scan. *)
Theorem classification_crowding_first (f : Flock) i me
    (Hi : nth_error (boids f) i = Some me) :
  let cd := max_dist_before_boid_is_no_longer_crowded f in
  let ld := max_dist_of_local_boid f in
  let others := firstn i (boids f) ++ skipn (S i) (boids f) in
  let crowded := filter (fun o => is_crowded_by_boid me o cd) others in
  let local := filter (fun o => negb (is_crowded_by_boid me o cd) &&
                                is_within_sight_of_local_boid me o ld)%bool others in
  let st := classify f me i in
  (forall o, is_crowded_by_boid me o cd = true <->
             Rabs (x_pos me - x_pos o) < cd /\ Rabs (y_pos me - y_pos o) < cd) /\
  num_crowding_boids st = List.length crowded /\
  total_x_dist_of_crowding_boids st = fold_left (fun s o => s + x_pos o) crowded 0 /\
  total_y_dist_of_crowding_boids st = fold_left (fun s o => s + y_pos o) crowded 0 /\
  num_local_boids st = List.length local /\
  total_of_local_boids st = fold_left boid_add_assign local (Boid_new 0 0 0 0) /\
  update_boid f i =
    option_map (set_boids f)
      (vec_set (boids f) i
         (maybe_reflect_off_boundaries
            (limit_speed_boid (boid_max_speed f) (time_per_frame f) (apply_rules f me st))
            (frame_width f) (frame_height f) (time_per_frame f))).
Proof.
  intros cd ld others crowded local st.
  assert (Hupd : update_boid f i =
    option_map (set_boids f)
      (vec_set (boids f) i
         (maybe_reflect_off_boundaries
            (limit_speed_boid (boid_max_speed f) (time_per_frame f) (apply_rules f me st))
            (frame_width f) (frame_height f) (time_per_frame f))))
    by (unfold update_boid; rewrite Hi; reflexivity).
  assert (Hst : st = fold_left (classify_step me cd ld) others scan_init)
    by (subst st; unfold classify; apply classify_from_others).
  rewrite fold_classify_step in Hst. cbv zeta in Hst.
  clearbody st. subst st.
  cbn [total_x_dist_of_crowding_boids total_y_dist_of_crowding_boids
       num_crowding_boids total_of_local_boids num_local_boids scan_init].
  repeat split; try reflexivity; try exact Hupd;
    intros; apply is_crowded_by_boid_spec; assumption.
Qed.

Lemma classification_crowding_first_witness :
  let f := mkFlock 3 [Boid_new 1.0 1.0 1.0 1.0; Boid_new 10.0 10.0 2.0 2.0;
                      Boid_new 40.0 40.0 0.0 0.0]
             40.0 500.0 0.0 0.0 0.0 1.0 8.0 800.0 500.0 in
  nth_error (boids f) 0 = Some (Boid_new 1.0 1.0 1.0 1.0) /\
  num_crowding_boids (classify f (Boid_new 1.0 1.0 1.0 1.0) 0) =
  List.length (filter (fun o => is_crowded_by_boid (Boid_new 1.0 1.0 1.0 1.0) o 40.0)
                 (skipn 1 (boids f))).
Proof.
  intros f. split; [reflexivity|].
  destruct (classification_crowding_first f 0 (Boid_new 1.0 1.0 1.0 1.0) eq_refl)
    as (_ & Hn & _).
  exact Hn.
Defined.

(** ** One tick of a lone agent *)

(** With no other agent, [update_boid] takes the "unaffected" branch, which
    advances the position, then [limit_speed], which (below the maximum
    speed) advances it again, then reflects. *)
Lemma lone_agent_update f b :
  boids f = [b] -> speed b <= boid_max_speed f ->
  update_boid f 0 =
  Some (set_boids f
    [maybe_reflect_off_boundaries
       (mkBoid (x_pos b + x_vel b * time_per_frame f + x_vel b * time_per_frame f)
               (y_pos b + y_vel b * time_per_frame f + y_vel b * time_per_frame f)
               (x_vel b) (y_vel b))
       (frame_width f) (frame_height f) (time_per_frame f)]).
Proof.
  intros Hb Hs. unfold update_boid. rewrite Hb. cbn [nth_error vec_set option_map].
  do 3 f_equal. unfold update_agent.
  replace (classify f b 0) with scan_init by (unfold classify; rewrite Hb; reflexivity).
  unfold apply_rules; cbn [num_crowding_boids num_local_boids scan_init Nat.ltb Nat.leb
                            Nat.eqb andb].
  rewrite limit_speed_boid_slow by (unfold speed in *; cbn [x_vel y_vel]; exact Hs).
  reflexivity.
Qed.

Lemma in_others {A} (l : list A) i o :
  In o (firstn i l ++ skipn (S i) l) -> exists j, j <> i /\ nth_error l j = Some o.
Proof.
  revert i; induction l as [|x l IH]; intros [|i] H; simpl in H.
  - destruct H.
  - destruct H.
  - apply In_nth_error in H. destruct H as [j Hj]. exists (S j); split; [lia|exact Hj].
  - destruct H as [<-|H].
    + exists 0%nat; split; [lia|reflexivity].
    + destruct (IH i H) as (j & Hj & E). exists (S j); split; [lia|exact E].
Qed.

Lemma filter_all_false {A} (p : A -> bool) l :
  (forall x, In x l -> p x = false) -> filter p l = [].
Proof.
  induction l as [|x l IH]; intros H; simpl; [reflexivity|].
  rewrite (H x (or_introl eq_refl)). apply IH. intros y Hy. apply H. right; exact Hy.
Qed.

Lemma classify_from_isolated me cd ld i bs :
  (forall j o, j <> i -> nth_error bs j = Some o ->
     is_crowded_by_boid me o cd = false /\ is_within_sight_of_local_boid me o ld = false) ->
  classify_from me cd ld i 0 bs scan_init = scan_init.
Proof.
  intros H. rewrite classify_from_others, fold_classify_step. cbv zeta.
  rewrite !filter_all_false.
  - reflexivity.
  - intros o Ho. destruct (in_others _ _ _ Ho) as (j & Hj & E).
    destruct (H j o Hj E) as [H1 H2]. rewrite H1, H2. reflexivity.
  - intros o Ho. destruct (in_others _ _ _ Ho) as (j & Hj & E).
    destruct (H j o Hj E) as [H1 _]. exact H1.
Qed.





(** C5 (code bug): one update of the lone agent at (100,100) with velocity
    (1,0) in a flock built by [Flock::new] advances its position twice, to
    (102,100), instead of once to (101,100). *)
Lemma update_boid_advances_position_twice :
  exists f0, Flock_new 1 1.0 50.0 0.0 0.0 0.0 = Ok f0 /\
  update_boid (set_boids f0 [Boid_new 100.0 100.0 1.0 0.0]) 0 =
  Some (set_boids f0 [Boid_new 102.0 100.0 1.0 0.0]).
Proof.
  assert (Hn : exists f0, Flock_new 1 1.0 50.0 0.0 0.0 0.0 = Ok f0).
  { unfold Flock_new; rewrite validate_config_errors; unfold config_errors,
      check_float_between_zero_and_one, validate_distances;
    cbn [max_dist_before_boid_is_no_longer_crowded max_dist_of_local_boid
         repulsion_factor adhesion_factor cohesion_factor]; eval_cmp.
    eexists; reflexivity. }
  destruct Hn as [f0 Hf0]. exists f0. split; [exact Hf0|].
  destruct (Flock_new_max_speed _ _ _ _ _ _ _ Hf0) as [Hm Ht].
  assert (Hwh : frame_width f0 = 800.0 /\ frame_height f0 = 500.0)
    by (unfold Flock_new in Hf0; destruct (validate _); inversion Hf0; split; reflexivity).
  destruct Hwh as [Hw Hh].
  rewrite (lone_agent_update (set_boids f0 [Boid_new 100.0 100.0 1.0 0.0])
             (Boid_new 100.0 100.0 1.0 0.0) eq_refl)
    by (cbn [boid_max_speed set_boids]; rewrite Hm; slow_agent).
  unfold maybe_reflect_off_boundaries, clamp_into_frame. cbn [x_pos y_pos x_vel y_vel
    Boid_new frame_width frame_height set_boids time_per_frame].
  rewrite Hw, Hh, Ht. eval_cmp. cbn [orb].
  replace (100.0 + 1.0 * 1.0 + 1.0 * 1.0) with 102.0 by lra.
  replace (100.0 + 0.0 * 1.0 + 0.0 * 1.0) with 100.0 by lra.
  reflexivity.
Qed.

(** ** Randomised placement *)

Lemma Flock_new_fields n cr lr r a c f :
  Flock_new n cr lr r a c = Ok f ->
  flock_size f = n /\ boid_max_speed f = 8.0 /\
  frame_width f = 800.0 /\ frame_height f = 500.0.
Proof.
  unfold Flock_new; destruct (validate _); intros E; inversion E; subst; auto.
Qed.

Lemma gen_range_bounds lo hi u :
  lo < hi -> 0 <= u < 1 -> lo <= gen_range lo hi u < hi.
Proof. intros Hlh Hu. unfold gen_range. split; nra. Qed.

(** C9 (code bug): after a valid construction, [randomly_generate_boids]
    places every agent with both coordinates in [[320, 480)], i.e. within
    [frame_width/10] of [frame_width/2] on the y axis as well as on the x
    axis, and both velocity components in [[-8, 8)]. *)
Theorem randomize_ranges n cr lr r a c f0 (u : nat -> R)
    (Hnew : Flock_new n cr lr r a c = Ok f0) (Hu : forall k, 0 <= u k < 1) :
  List.length (boids (randomly_generate_boids f0 u)) = n /\
  Forall (fun b =>
            frame_width f0 / 2 - frame_width f0 / 10 <= x_pos b <
              frame_width f0 / 2 + frame_width f0 / 10 /\
            frame_width f0 / 2 - frame_width f0 / 10 <= y_pos b <
              frame_width f0 / 2 + frame_width f0 / 10 /\
            320 <= y_pos b < 480 /\
            - boid_max_speed f0 <= x_vel b < boid_max_speed f0 /\
            - boid_max_speed f0 <= y_vel b < boid_max_speed f0)
         (boids (randomly_generate_boids f0 u)).
Proof.
  destruct (Flock_new_fields _ _ _ _ _ _ _ Hnew) as (Hn & Hm & Hw & Hh).
  unfold randomly_generate_boids; cbn [boids set_boids].
  split; [rewrite length_map, length_seq; exact Hn|].
  apply Forall_forall. intros b Hin. apply in_map_iff in Hin.
  destruct Hin as (j & <- & _).
  unfold random_boid, Boid_new; cbv zeta; cbn [x_pos y_pos x_vel y_vel].
  rewrite Hw, Hm.
  pose proof (gen_range_bounds (- (800.0 / 10.0)) (800.0 / 10.0) (u (4 * j)%nat)
                ltac:(lra) (Hu _)) as G1.
  pose proof (gen_range_bounds (- (800.0 / 10.0)) (800.0 / 10.0) (u (4 * j + 1)%nat)
                ltac:(lra) (Hu _)) as G2.
  pose proof (gen_range_bounds (Ropp 8.0) 8.0 (u (4 * j + 2)%nat) ltac:(lra) (Hu _)) as G3.
  pose proof (gen_range_bounds (Ropp 8.0) 8.0 (u (4 * j + 3)%nat) ltac:(lra) (Hu _)) as G4.
  repeat split; lra.
Qed.

Lemma randomize_ranges_witness :
  exists f0, Flock_new 2 1.0 50.0 0.5 0.5 0.5 = Ok f0 /\
  Forall (fun b => 320 <= y_pos b < 480)
         (boids (randomly_generate_boids f0 (fun _ => 0.5))).
Proof.
  assert (Hn : exists f0, Flock_new 2 1.0 50.0 0.5 0.5 0.5 = Ok f0).
  { unfold Flock_new; rewrite validate_config_errors; unfold config_errors,
      check_float_between_zero_and_one, validate_distances;
    cbn [max_dist_before_boid_is_no_longer_crowded max_dist_of_local_boid
         repulsion_factor adhesion_factor cohesion_factor]; eval_cmp.
    eexists; reflexivity. }
  destruct Hn as [f0 Hf0]. exists f0. split; [exact Hf0|].
  destruct (randomize_ranges 2 1.0 50.0 0.5 0.5 0.5 f0 (fun _ => 0.5) Hf0
              ltac:(intros; lra)) as [_ HF].
  refine (Forall_impl _ _ HF). intros b (_ & _ & Hy & _). exact Hy.
Defined.

(** The frame built by [Flock::new] is 500 high, so its centre band
    [250 +/- 50] on the y axis is [[200, 300]]; with every sample at the middle
    of its range, each agent is placed at y = 400. *)
Lemma randomize_y_off_centre :
  exists f0, Flock_new 1 1.0 50.0 0.5 0.5 0.5 = Ok f0 /\
  exists b, boids (randomly_generate_boids f0 (fun _ => 0.5)) = [b] /\
    y_pos b = 400.0 /\
    ~ (frame_height f0 / 2 - frame_height f0 / 10 <= y_pos b <=
       frame_height f0 / 2 + frame_height f0 / 10).
Proof.
  destruct Flock_new_valid_example as [f0 Hf0]. exists f0. split; [exact Hf0|].
  destruct (Flock_new_fields _ _ _ _ _ _ _ Hf0) as (Hn & Hm & Hw & Hh).
  unfold randomly_generate_boids; cbn [boids set_boids]. rewrite Hn.
  eexists; split; [reflexivity|].
  unfold random_boid, Boid_new, gen_range; cbv zeta; cbn [y_pos]. rewrite Hw, Hh.
  split; lra.
Qed.

(** ** Further properties of the code *)

Lemma list_ascii_of_string_app (s t : string) :
  list_ascii_of_string (s ++ t) = (list_ascii_of_string s ++ list_ascii_of_string t)%list.
Proof. induction s as [|c s IH]; simpl; [reflexivity|now rewrite IH]. Qed.

Lemma list_ascii_of_string_inj (s t : string) :
  list_ascii_of_string s = list_ascii_of_string t -> s = t.
Proof.
  intros H. rewrite <- (string_of_list_ascii_of_string s), <- (string_of_list_ascii_of_string t).
  now rewrite H.
Qed.

(** X1: the [Display] messages of [CreationError] tell the errors apart:
    two errors have the same message exactly when they are the same error
    (same variant and same factor name). *)
Theorem CreationError_to_string_injective e1 e2 :
  CreationError_to_string e1 = CreationError_to_string e2 <-> e1 = e2.
Proof.
  split; [|intros ->; reflexivity]. intros H. apply (f_equal (fun s => rev (list_ascii_of_string s))) in H.
  destruct e1, e2; cbn [CreationError_to_string] in H;
    rewrite ?list_ascii_of_string_app, ?rev_app_distr in H; simpl in H;
    try discriminate; try reflexivity;
    repeat (injection H as H); f_equal;
    apply (f_equal (@rev ascii)) in H; rewrite !rev_involutive in H;
    apply list_ascii_of_string_inj; exact H.
Qed.

Lemma BoidsRs_validate_config_errors (f : BoidsRs.Flock) :
  BoidsRs.validate f =
  let es := config_errors (BoidsRs.max_dist_before_boid_is_no_longer_crowded f)
              (BoidsRs.max_dist_of_local_boid f) (BoidsRs.repulsion_factor f)
              (BoidsRs.adhesion_factor f) (BoidsRs.cohesion_factor f) in
  if (0 <? List.length es)%nat then Err {| errors := es |} else Ok tt.
Proof.
  unfold BoidsRs.validate, config_errors, validate_factors. rewrite filter_map_id_app.
  destruct (validate_distances _ _); cbn [filter_map_id];
    [reflexivity | rewrite List.app_nil_r; reflexivity].
Qed.

(** X2: the constructors of boids.rs and flock.rs agree: on every
    configuration both fail with the same error list, or both succeed with
    [flock_size] agents at rest at the origin and the same distances,
    factors, time per frame and frame size. *)
Theorem Flock_new_revisions_agree n cr lr r a c :
  match BoidsRs.Flock_new n cr lr r a c, Flock_new n cr lr r a c with
  | Err e1, Err e2 => errors e1 = errors e2
  | Ok g, Ok f =>
      BoidsRs.boids g = boids f /\ BoidsRs.boids g = repeat (Boid_new 0 0 0 0) n /\
      BoidsRs.max_dist_before_boid_is_no_longer_crowded g =
        max_dist_before_boid_is_no_longer_crowded f /\
      BoidsRs.max_dist_of_local_boid g = max_dist_of_local_boid f /\
      BoidsRs.repulsion_factor g = repulsion_factor f /\
      BoidsRs.adhesion_factor g = adhesion_factor f /\
      BoidsRs.cohesion_factor g = cohesion_factor f /\
      IZR (BoidsRs.time_per_frame g) = time_per_frame f /\
      IZR (BoidsRs.frame_width g) = frame_width f /\
      IZR (BoidsRs.frame_height g) = frame_height f
  | _, _ => False
  end.
Proof.
  unfold BoidsRs.Flock_new, Flock_new.
  rewrite BoidsRs_validate_config_errors, validate_config_errors.
  cbn [BoidsRs.max_dist_before_boid_is_no_longer_crowded BoidsRs.max_dist_of_local_boid
       BoidsRs.repulsion_factor BoidsRs.adhesion_factor BoidsRs.cohesion_factor
       max_dist_before_boid_is_no_longer_crowded max_dist_of_local_boid
       repulsion_factor adhesion_factor cohesion_factor].
  destruct (config_errors cr lr r a c) as [|e es]; simpl; [|reflexivity].
  unfold BoidsRs.generate_boids, generate_boids; simpl.
  rewrite push_zero_boids_repeat.
  repeat split; try reflexivity; lra.
Qed.

(** X3: [uncrowd_boid] of boids.rs, for a positive crowding count and a
    non-negative repulsion factor, changes the agent's velocity by a vector
    that never points towards the crowd's mean position (non-negative dot
    product with the displacement from that mean); with repulsion 0 the
    velocity is kept. The position advances by the old velocity times
    [time_per_frame], and no other agent changes. *)
Theorem uncrowd_boid_steers_away (f : BoidsRs.Flock) i b n tx ty
    (Hi : nth_error (BoidsRs.boids f) i = Some b) (Hn : (0 < n)%Z)
    (Hr : 0 <= BoidsRs.repulsion_factor f) :
  exists f' b',
    BoidsRs.uncrowd_boid f i n tx ty = Some f' /\
    nth_error (BoidsRs.boids f') i = Some b' /\
    0 <= (x_vel b' - x_vel b) * (x_pos b - tx / IZR n) +
         (y_vel b' - y_vel b) * (y_pos b - ty / IZR n) /\
    (BoidsRs.repulsion_factor f = 0 -> x_vel b' = x_vel b /\ y_vel b' = y_vel b) /\
    x_pos b' = x_pos b + x_vel b * IZR (BoidsRs.time_per_frame f) /\
    y_pos b' = y_pos b + y_vel b * IZR (BoidsRs.time_per_frame f) /\
    List.length (BoidsRs.boids f') = List.length (BoidsRs.boids f) /\
    (forall j, j <> i -> nth_error (BoidsRs.boids f') j = nth_error (BoidsRs.boids f) j).
Proof.
  unfold BoidsRs.uncrowd_boid. rewrite Hi. cbv zeta.
  match goal with |- context [vec_set _ _ ?nb] =>
    destruct (nth_error_vec_set (BoidsRs.boids f) i nb b Hi) as (l' & E & N & L);
    rewrite E; exists (BoidsRs.set_boids f l'), nb end.
  cbn [option_map BoidsRs.boids BoidsRs.set_boids x_vel y_vel x_pos y_pos].
  repeat split; auto.
  - set (dx := x_pos b - tx / IZR n). set (dy := y_pos b - ty / IZR n).
    replace (x_vel b + dx * BoidsRs.repulsion_factor f - x_vel b) with (dx * BoidsRs.repulsion_factor f) by ring.
    replace (y_vel b + dy * BoidsRs.repulsion_factor f - y_vel b) with (dy * BoidsRs.repulsion_factor f) by ring.
    nra.
  - match goal with H : BoidsRs.repulsion_factor f = 0 |- _ => rewrite H end; ring.
  - match goal with H : BoidsRs.repulsion_factor f = 0 |- _ => rewrite H end; ring.
  - intros j Hj. apply (nth_error_vec_set_other _ _ _ _ _ E Hj).
Qed.

(** The flock of the boids.rs separation test, after [Flock::new(0, 40.0,
    500.0, 0.0, 0.0, 0.0)] and [flock.boids = vec![boid, other_boid]]. *)
Lemma uncrowd_boid_steers_away_witness :
  let f := BoidsRs.mkFlock [Boid_new 1.0 1.0 1.0 1.0; Boid_new 10.0 10.0 1.0 5.0]
             40.0 500.0 0.0 0.0 0.0 1 800 500 in
  exists f' b',
    BoidsRs.uncrowd_boid f 0 1 10.0 10.0 = Some f' /\
    nth_error (BoidsRs.boids f') 0 = Some b' /\
    x_vel b' = 1.0 /\ y_vel b' = 1.0 /\ x_pos b' = 2.0 /\ y_pos b' = 2.0.
Proof.
  intros f.
  destruct (uncrowd_boid_steers_away f 0 (Boid_new 1.0 1.0 1.0 1.0) 1 10.0 10.0
              eq_refl ltac:(lia) ltac:(cbn; lra))
    as (f' & b' & E & N & _ & R0 & X & Y & _).
  destruct (R0 ltac:(cbn; lra)) as [VX VY].
  exists f', b'. repeat split; auto.
  - rewrite X; cbn; lra.
  - rewrite Y; cbn; lra.
Defined.

Lemma set_cohesion_set_boids f c l :
  BoidsRs.set_boids (BoidsRs.set_cohesion_factor f c) l =
  BoidsRs.set_cohesion_factor (BoidsRs.set_boids f l) c.
Proof. reflexivity. Qed.

Lemma uncrowd_set_cohesion f c i n tx ty :
  BoidsRs.uncrowd_boid (BoidsRs.set_cohesion_factor f c) i n tx ty =
  option_map (fun g => BoidsRs.set_cohesion_factor g c) (BoidsRs.uncrowd_boid f i n tx ty).
Proof.
  unfold BoidsRs.uncrowd_boid. cbn [BoidsRs.boids BoidsRs.set_cohesion_factor].
  destruct (nth_error (BoidsRs.boids f) i); [|reflexivity].
  destruct (vec_set _ _ _); reflexivity.
Qed.

Lemma align_set_cohesion f c i n tx ty :
  BoidsRs.align_boid (BoidsRs.set_cohesion_factor f c) i n tx ty =
  option_map (fun g => BoidsRs.set_cohesion_factor g c) (BoidsRs.align_boid f i n tx ty).
Proof.
  unfold BoidsRs.align_boid. cbn [BoidsRs.boids BoidsRs.set_cohesion_factor].
  destruct (nth_error (BoidsRs.boids f) i); [|reflexivity].
  destruct (vec_set _ _ _); reflexivity.
Qed.

Lemma continue_set_cohesion f c i :
  BoidsRs.continue_boid (BoidsRs.set_cohesion_factor f c) i =
  option_map (fun g => BoidsRs.set_cohesion_factor g c) (BoidsRs.continue_boid f i).
Proof.
  unfold BoidsRs.continue_boid. cbn [BoidsRs.boids BoidsRs.set_cohesion_factor].
  destruct (nth_error (BoidsRs.boids f) i); [|reflexivity].
  destruct (vec_set _ _ _); reflexivity.
Qed.

Lemma reflect_set_cohesion f c i :
  BoidsRs.maybe_reflect_off_boundaries (BoidsRs.set_cohesion_factor f c) i =
  option_map (fun g => BoidsRs.set_cohesion_factor g c) (BoidsRs.maybe_reflect_off_boundaries f i).
Proof.
  unfold BoidsRs.maybe_reflect_off_boundaries. cbn [BoidsRs.boids BoidsRs.set_cohesion_factor].
  destruct (nth_error (BoidsRs.boids f) i); [|reflexivity].
  destruct (vec_set _ _ _); reflexivity.
Qed.

(** X4: [update_boid] of boids.rs does not depend on the cohesion factor
    ([cohere_boid] is an empty [todo]): changing it changes nothing in the
    result but that field. *)
Theorem update_boid_ignores_cohesion (f : BoidsRs.Flock) c i :
  BoidsRs.update_boid (BoidsRs.set_cohesion_factor f c) i =
  option_map (fun g => BoidsRs.set_cohesion_factor g c) (BoidsRs.update_boid f i).
Proof.
  unfold BoidsRs.update_boid. cbn [BoidsRs.boids BoidsRs.set_cohesion_factor
    BoidsRs.max_dist_before_boid_is_no_longer_crowded BoidsRs.max_dist_of_local_boid].
  destruct (nth_error (BoidsRs.boids f) i) as [me|]; [|reflexivity].
  set (st := classify_from _ _ _ _ _ _ _).
  destruct (0 <? Z.of_nat (num_crowding_boids st))%Z.
  - rewrite uncrowd_set_cohesion.
    destruct (BoidsRs.uncrowd_boid f i _ _ _) as [f1|]; [|reflexivity]. cbn [option_map].
    destruct (0 <? Z.of_nat (num_local_boids st))%Z.
    + rewrite align_set_cohesion.
      destruct (BoidsRs.align_boid f1 i _ _ _) as [g|]; [|reflexivity].
      cbn [option_map BoidsRs.cohere_boid].
      destruct (_ && _)%bool; [rewrite continue_set_cohesion;
        destruct (BoidsRs.continue_boid g i); [|reflexivity]; cbn [option_map]|];
      apply reflect_set_cohesion.
    + destruct (_ && _)%bool; [rewrite continue_set_cohesion;
        destruct (BoidsRs.continue_boid f1 i); [|reflexivity]; cbn [option_map]|];
      apply reflect_set_cohesion.
  - destruct (0 <? Z.of_nat (num_local_boids st))%Z.
    + rewrite align_set_cohesion.
      destruct (BoidsRs.align_boid f i _ _ _) as [g|]; [|reflexivity].
      cbn [option_map BoidsRs.cohere_boid].
      destruct (_ && _)%bool; [rewrite continue_set_cohesion;
        destruct (BoidsRs.continue_boid g i); [|reflexivity]; cbn [option_map]|];
      apply reflect_set_cohesion.
    + destruct (_ && _)%bool; [rewrite continue_set_cohesion;
        destruct (BoidsRs.continue_boid f i); [|reflexivity]; cbn [option_map]|];
      apply reflect_set_cohesion.
Qed.

(** X5: in boids.rs, when no other agent crowds agent [i] or is within its
    local radius, [update_boid] moves it once by its velocity times
    [time_per_frame], keeps the absolute value of each velocity component
    (the reflection may only flip signs), hence its speed, and leaves every
    other agent as it was. *)
Theorem update_boid_isolated_agent_keeps_speed (f : BoidsRs.Flock) i b
    (Hi : nth_error (BoidsRs.boids f) i = Some b)
    (Hfar : forall j o, j <> i -> nth_error (BoidsRs.boids f) j = Some o ->
       is_crowded_by_boid b o (BoidsRs.max_dist_before_boid_is_no_longer_crowded f) = false /\
       is_within_sight_of_local_boid b o (BoidsRs.max_dist_of_local_boid f) = false) :
  exists f' b',
    BoidsRs.update_boid f i = Some f' /\
    nth_error (BoidsRs.boids f') i = Some b' /\
    x_pos b' = x_pos b + x_vel b * IZR (BoidsRs.time_per_frame f) /\
    y_pos b' = y_pos b + y_vel b * IZR (BoidsRs.time_per_frame f) /\
    Rabs (x_vel b') = Rabs (x_vel b) /\ Rabs (y_vel b') = Rabs (y_vel b) /\
    speed b' = speed b /\
    (forall j, j <> i -> nth_error (BoidsRs.boids f') j = nth_error (BoidsRs.boids f) j).
Proof.
  unfold BoidsRs.update_boid. rewrite Hi.
  rewrite classify_from_isolated by exact Hfar.
  cbn [scan_init num_crowding_boids num_local_boids Z.of_nat Z.ltb Z.compare Z.eqb andb].
  unfold BoidsRs.continue_boid. rewrite Hi.
  set (nb := {| x_vel := x_vel b; y_vel := y_vel b;
                x_pos := x_pos b + x_vel b * IZR (BoidsRs.time_per_frame f);
                y_pos := y_pos b + y_vel b * IZR (BoidsRs.time_per_frame f) |}).
  destruct (nth_error_vec_set (BoidsRs.boids f) i nb b Hi) as (l1 & E1 & N1 & _).
  rewrite E1. cbn [option_map].
  unfold BoidsRs.maybe_reflect_off_boundaries. cbn [BoidsRs.boids BoidsRs.set_boids].
  rewrite N1.
  set (rb := BoidsRs.reflect_boid (BoidsRs.set_boids f l1) nb).
  destruct (nth_error_vec_set l1 i rb nb N1) as (l2 & E2 & N2 & _).
  rewrite E2. exists (BoidsRs.set_boids (BoidsRs.set_boids f l1) l2), rb.
  assert (Hv : x_pos rb = x_pos nb /\ y_pos rb = y_pos nb /\
               (x_vel rb = x_vel nb \/ x_vel rb = - x_vel nb) /\
               (y_vel rb = y_vel nb \/ y_vel rb = - y_vel nb)).
  { subst rb; unfold BoidsRs.reflect_boid;
      destruct (f_ge _ _); cbn [x_pos y_pos x_vel y_vel];
      destruct (f_ge _ _); cbn [x_pos y_pos x_vel y_vel]; intuition. }
  destruct Hv as (Hx & Hy & Hvx & Hvy).
  subst nb; cbn [x_pos y_pos x_vel y_vel] in Hx, Hy, Hvx, Hvy.
  repeat split; auto.
  - destruct Hvx as [-> | ->]; [reflexivity | apply Rabs_Ropp].
  - destruct Hvy as [-> | ->]; [reflexivity | apply Rabs_Ropp].
  - unfold speed. f_equal. destruct Hvx as [-> | ->]; destruct Hvy as [-> | ->]; ring.
  - intros j Hj. cbn [BoidsRs.boids BoidsRs.set_boids].
    rewrite (nth_error_vec_set_other _ _ _ _ _ E2 Hj).
    apply (nth_error_vec_set_other _ _ _ _ _ E1 Hj).
Qed.

(** Two agents 100 apart on each axis, with local radius 50: each is
    isolated. *)
Lemma update_boid_isolated_agent_keeps_speed_witness :
  let f := BoidsRs.mkFlock [Boid_new 1.0 1.0 3.0 4.0; Boid_new 101.0 101.0 0.0 0.0]
             1.0 50.0 0.0 0.0 0.0 1 800 500 in
  exists f' b',
    BoidsRs.update_boid f 0 = Some f' /\
    nth_error (BoidsRs.boids f') 0 = Some b' /\
    x_pos b' = 4.0 /\ y_pos b' = 5.0 /\ speed b' = speed (Boid_new 1.0 1.0 3.0 4.0).
Proof.
  intros f.
  destruct (update_boid_isolated_agent_keeps_speed f 0 (Boid_new 1.0 1.0 3.0 4.0) eq_refl)
    as (f' & b' & E & N & X & Y & _ & _ & S & _).
  { intros [|[|j]] o Hj E; [lia| |destruct j; discriminate].
    injection E as <-. unfold is_crowded_by_boid, is_within_sight_of_local_boid.
    cbn [x_pos y_pos Boid_new f BoidsRs.max_dist_before_boid_is_no_longer_crowded
         BoidsRs.max_dist_of_local_boid].
    rewrite (Rabs_left (1.0 - 101.0)) by lra.
    eval_cmp. split; reflexivity. }
  exists f', b'. repeat split; auto.
  - rewrite X; cbn; lra.
  - rewrite Y; cbn; lra.
Defined.

Lemma checked_in z :
  (MainRs.i32_min <= z <= MainRs.i32_max)%Z -> MainRs.checked z = Some z.
Proof.
  intros H. unfold MainRs.checked.
  rewrite (proj2 (Z.leb_le _ _)), (proj2 (Z.leb_le _ _)) by lia. reflexivity.
Qed.

Lemma checked_some z w : MainRs.checked z = Some w -> w = z.
Proof. unfold MainRs.checked. destruct (_ && _)%bool; congruence. Qed.

Lemma sub_abs_sym a b :
  match MainRs.sub a b with Some d => MainRs.abs d | None => None end =
  match MainRs.sub b a with Some d => MainRs.abs d | None => None end.
Proof.
  unfold MainRs.sub, MainRs.abs, MainRs.checked, MainRs.i32_min, MainRs.i32_max.
  repeat (cbn [andb]; match goal with
    |- context [(?x <=? ?y)%Z] => destruct (Z.leb_spec x y) end);
  cbn [andb]; first [reflexivity | exfalso; lia | f_equal; lia].
Qed.

Lemma is_crowded_by_boid_i32_form a o d :
  MainRs.is_crowded_by_boid a o d =
  match (match MainRs.sub (MainRs.x_pos a) (MainRs.x_pos o) with
         | Some dx => MainRs.abs dx | None => None end) with
  | Some ax =>
      if (ax <? d)%Z then
        match (match MainRs.sub (MainRs.y_pos a) (MainRs.y_pos o) with
               | Some dy => MainRs.abs dy | None => None end) with
        | Some ay => Some (ay <? d)%Z
        | None => None
        end
      else Some false
  | None => None
  end.
Proof.
  unfold MainRs.is_crowded_by_boid.
  destruct (MainRs.sub (MainRs.x_pos a) (MainRs.x_pos o)); [|reflexivity].
  destruct (MainRs.abs z); [|reflexivity].
  destruct (z0 <? d)%Z; [|reflexivity].
  destruct (MainRs.sub (MainRs.y_pos a) (MainRs.y_pos o)); reflexivity.
Qed.

(** X6: the [i32] crowding test of main.rs is symmetric in its two agents,
    overflow included: when one direction panics on [-] or [abs], so does
    the other. *)
Theorem is_crowded_by_boid_i32_symmetric a o d :
  MainRs.is_crowded_by_boid a o d = MainRs.is_crowded_by_boid o a d.
Proof.
  rewrite !is_crowded_by_boid_i32_form, (sub_abs_sym (MainRs.x_pos a)),
    (sub_abs_sym (MainRs.y_pos a)).
  reflexivity.
Qed.

(** X7: the crowding and local-sight tests of boids.rs are symmetric: agent
    [a] is crowded by [o] (within sight of [o]) exactly when [o] is crowded
    by [a] (within sight of [a]). *)
Theorem neighbour_tests_symmetric a o d :
  is_crowded_by_boid a o d = is_crowded_by_boid o a d /\
  is_within_sight_of_local_boid a o d = is_within_sight_of_local_boid o a d.
Proof.
  unfold is_crowded_by_boid, is_within_sight_of_local_boid.
  rewrite (Rabs_minus_sym (x_pos a)), (Rabs_minus_sym (y_pos a)). split; reflexivity.
Qed.


Lemma sub_small a b : i32_half_range a -> i32_half_range b -> MainRs.sub a b = Some (a - b)%Z.
Proof.
  unfold i32_half_range; intros Ha Hb. unfold MainRs.sub. apply checked_in.
  unfold MainRs.i32_min, MainRs.i32_max. lia.
Qed.

Lemma is_crowded_small a o d :
  i32_half_range (MainRs.x_pos a) -> i32_half_range (MainRs.y_pos a) ->
  i32_half_range (MainRs.x_pos o) -> i32_half_range (MainRs.y_pos o) ->
  MainRs.is_crowded_by_boid a o d =
  Some ((Z.abs (MainRs.x_pos a - MainRs.x_pos o) <? d) &&
        (Z.abs (MainRs.y_pos a - MainRs.y_pos o) <? d))%Z%bool.
Proof.
  intros H1 H2 H3 H4. unfold MainRs.is_crowded_by_boid.
  rewrite sub_small by assumption. unfold MainRs.abs.
  unfold i32_half_range in *.
  rewrite checked_in by (unfold MainRs.i32_min, MainRs.i32_max; lia).
  destruct (Z.abs _ <? d)%Z; [|reflexivity].
  rewrite sub_small by assumption.
  rewrite checked_in by (unfold MainRs.i32_min, MainRs.i32_max; lia). reflexivity.
Qed.

Lemma scan_uncrowded f i me k bs n tx ty :
  nth_error (MainRs.boids f) i = Some me ->
  i32_half_range (MainRs.x_pos me) -> i32_half_range (MainRs.y_pos me) ->
  (forall j o, nth_error bs j = Some o -> (k + j)%nat <> i ->
     i32_half_range (MainRs.x_pos o) /\ i32_half_range (MainRs.y_pos o) /\
     ~ (Z.abs (MainRs.x_pos me - MainRs.x_pos o) < MainRs.max_dist_before_boid_is_crowded f /\
        Z.abs (MainRs.y_pos me - MainRs.y_pos o) < MainRs.max_dist_before_boid_is_crowded f)%Z) ->
  MainRs.scan f i k bs n tx ty = Some (n, tx, ty).
Proof.
  intros Hi Hx Hy. revert k. induction bs as [|o bs IH]; intros k H; simpl; [reflexivity|].
  destruct (Nat.eqb_spec k i).
  - apply IH. intros j o' E Hj. apply (H (S j)); [exact E|lia].
  - rewrite Hi. destruct (H 0%nat o eq_refl ltac:(lia)) as (Ho1 & Ho2 & Hn).
    rewrite is_crowded_small by assumption.
    replace ((Z.abs _ <? _) && (Z.abs _ <? _))%Z%bool with false.
    + apply IH. intros j o' E Hj. apply (H (S j)); [exact E|lia].
    + symmetry. apply Bool.not_true_iff_false. intros Hc.
      apply Bool.andb_true_iff in Hc. destruct Hc as [C1 C2].
      apply Z.ltb_lt in C1, C2. tauto.
Qed.

(** X8: in main.rs, when no other agent crowds agent [i] and all positions
    are below [2^30] in absolute value (no [i32] overflow in the scan),
    [update_boid] leaves the flock exactly as it was: the agent does not
    even move, there being no "unaffected" branch. *)
Theorem update_boid_uncrowded_agent_stays (f : MainRs.Flock) i r me
    (Hi : nth_error (MainRs.boids f) i = Some me)
    (Hsmall : Forall (fun o => i32_half_range (MainRs.x_pos o) /\ i32_half_range (MainRs.y_pos o))
                     (MainRs.boids f))
    (Hfar : forall j o, j <> i -> nth_error (MainRs.boids f) j = Some o ->
       ~ (Z.abs (MainRs.x_pos me - MainRs.x_pos o) < MainRs.max_dist_before_boid_is_crowded f /\
          Z.abs (MainRs.y_pos me - MainRs.y_pos o) < MainRs.max_dist_before_boid_is_crowded f)%Z) :
  MainRs.update_boid f i r = Some f.
Proof.
  rewrite Forall_forall in Hsmall.
  destruct (Hsmall me (nth_error_In _ _ Hi)) as [Hx Hy].
  unfold MainRs.update_boid.
  rewrite (scan_uncrowded f i me 0 (MainRs.boids f) 0 0 0 Hi Hx Hy).
  - reflexivity.
  - intros j o E Hj. destruct (Hsmall o (nth_error_In _ _ E)) as [Ho1 Ho2].
    repeat split; auto. apply (Hfar j o); [lia|exact E].
Qed.

(** The main.rs test flock [Flock::new(0, 4, 5)] with the agents (1,1) and
    (10,10): neither crowds the other, so neither moves. *)
Lemma update_boid_uncrowded_agent_stays_witness :
  let f := MainRs.set_boids (MainRs.Flock_new 0 4 5)
             [MainRs.mkBoid 1 1 1 1; MainRs.mkBoid 10 10 2 2] in
  MainRs.update_boid f 0 1 = Some f.
Proof.
  intros f.
  apply (update_boid_uncrowded_agent_stays f 0 1 (MainRs.mkBoid 1 1 1 1) eq_refl).
  - unfold i32_half_range. repeat constructor; simpl; lia.
  - intros [|[|j]] o Hj E; [lia| |destruct j; discriminate].
    injection E as <-. simpl. lia.
Defined.

(** X9: in main.rs, [update_boid] with an index past the end panics when
    the flock has an agent, and does nothing on an empty flock (the loop
    never runs and no index is taken). *)
Theorem update_boid_index_out_of_range (f : MainRs.Flock) i r
    (Hi : (List.length (MainRs.boids f) <= i)%nat) :
  MainRs.update_boid f i r =
  match MainRs.boids f with [] => Some f | _ :: _ => None end.
Proof.
  unfold MainRs.update_boid.
  destruct (MainRs.boids f) as [|o bs] eqn:E; [reflexivity|].
  destruct i as [|i]; [simpl in Hi; lia|].
  cbn [MainRs.scan Nat.eqb]. rewrite E.
  rewrite (proj2 (nth_error_None (o :: bs) (S i))) by (simpl in *; lia).
  reflexivity.
Qed.

Lemma update_boid_index_out_of_range_witness :
  MainRs.update_boid (MainRs.Flock_new 0 4 5) 3 1 = Some (MainRs.Flock_new 0 4 5) /\
  MainRs.update_boid (MainRs.Flock_new 2 4 5) 2 1 = None.
Proof.
  split.
  - apply (update_boid_index_out_of_range (MainRs.Flock_new 0 4 5) 3 1); simpl; lia.
  - apply (update_boid_index_out_of_range (MainRs.Flock_new 2 4 5) 2 1); simpl; lia.
Defined.


(** X10: in main.rs, an [update_boid] with repulsion [0] that completes
    keeps the length of the flock, its distances and every agent's velocity;
    every agent but [i] is unchanged, and agent [i] either stays or moves by
    its velocity. *)
Theorem update_boid_zero_repulsion_keeps_velocities (f f' : MainRs.Flock) i
    (H : MainRs.update_boid f i 0 = Some f') :
  MainRs.max_dist_before_boid_is_crowded f' = MainRs.max_dist_before_boid_is_crowded f /\
  MainRs.max_dist_of_local_boid f' = MainRs.max_dist_of_local_boid f /\
  List.length (MainRs.boids f') = List.length (MainRs.boids f) /\
  forall j b', nth_error (MainRs.boids f') j = Some b' ->
    exists b, nth_error (MainRs.boids f) j = Some b /\
      MainRs.x_vel b' = MainRs.x_vel b /\ MainRs.y_vel b' = MainRs.y_vel b /\
      (b' = b \/
       (j = i /\ MainRs.x_pos b' = (MainRs.x_pos b + MainRs.x_vel b)%Z /\
                 MainRs.y_pos b' = (MainRs.y_pos b + MainRs.y_vel b)%Z)).
Proof.
  unfold MainRs.update_boid in H.
  destruct (MainRs.scan f i 0 (MainRs.boids f) 0 0 0) as [[[n tx] ty]|]; [|discriminate].
  destruct (0 <? n)%Z.
  2:{ injection H as <-. split; [reflexivity|split; [reflexivity|split; [reflexivity|]]].
      intros j b' E. exists b'. repeat split; auto. }
  unfold MainRs.uncrowd_boid in H.
  destruct (nth_error (MainRs.boids f) i) as [b|] eqn:Hi; [|discriminate].
  repeat match type of H with
  | context [match ?e with Some _ => _ | None => None end] =>
      let E := fresh "E" in destruct e eqn:E; [|discriminate]
  end.
  unfold MainRs.add, MainRs.mul in *.
  repeat match goal with
  | E : MainRs.checked _ = Some _ |- _ => apply checked_some in E
  end.
  subst.
  set (nb := MainRs.mkBoid _ _ _ _) in H.
  destruct (nth_error_vec_set (MainRs.boids f) i nb b Hi) as (l' & E' & N & L).
  rewrite E' in H. injection H as <-. cbn [MainRs.set_boids MainRs.boids
    MainRs.max_dist_before_boid_is_crowded MainRs.max_dist_of_local_boid].
  split; [reflexivity|split; [reflexivity|split; [exact L|]]].
  intros j b' Ej. destruct (Nat.eq_dec j i) as [->|Hj].
  - rewrite N in Ej. injection Ej as <-. exists b. split; [exact Hi|].
    subst nb; cbn [MainRs.x_vel MainRs.y_vel MainRs.x_pos MainRs.y_pos].
    repeat split; try ring. right. split; [reflexivity|split; ring].
  - rewrite (nth_error_vec_set_other _ _ _ _ _ E' Hj) in Ej.
    exists b'. repeat split; auto.
Qed.

(** The first step of the main.rs test: [Flock::new(0, 40, 5)] with the
    agents (1,1) and (10,10), updated with repulsion [0]: agent 0 is crowded,
    keeps its velocity (1,1) and moves to (2,2). *)
Lemma update_boid_zero_repulsion_keeps_velocities_witness :
  let f := MainRs.set_boids (MainRs.Flock_new 0 40 5)
             [MainRs.mkBoid 1 1 1 1; MainRs.mkBoid 10 10 1 5] in
  let f' := MainRs.set_boids f [MainRs.mkBoid 2 2 1 1; MainRs.mkBoid 10 10 1 5] in
  MainRs.update_boid f 0 0 = Some f' /\
  List.length (MainRs.boids f') = List.length (MainRs.boids f).
Proof.
  intros f f'.
  assert (H : MainRs.update_boid f 0 0 = Some f') by (vm_compute; reflexivity).
  split; [exact H|].
  apply (update_boid_zero_repulsion_keeps_velocities f f' 0 H).
Defined.

(** X11: for a non-negative maximum speed, [limit_speed] of flock.rs keeps
    the agent's heading: its new velocity is its old velocity scaled by a
    factor in [[0, 1]]; the position then advances by the new velocity times
    [time_per_frame]; the other agents and the settings are kept. *)
Theorem limit_speed_keeps_heading (f : Flock) i b
    (Hi : nth_error (boids f) i = Some b) (Hm : 0 <= boid_max_speed f) :
  exists f' b' k,
    limit_speed f i = Some f' /\ nth_error (boids f') i = Some b' /\
    0 <= k <= 1 /\ x_vel b' = k * x_vel b /\ y_vel b' = k * y_vel b /\
    x_pos b' = x_pos b + x_vel b' * time_per_frame f /\
    y_pos b' = y_pos b + y_vel b' * time_per_frame f /\
    f' = set_boids f (boids f') /\
    (forall j, j <> i -> nth_error (boids f') j = nth_error (boids f) j).
Proof.
  unfold limit_speed. rewrite Hi.
  set (b' := limit_speed_boid (boid_max_speed f) (time_per_frame f) b).
  destruct (nth_error_vec_set (boids f) i b' b Hi) as (l' & E & N & _).
  rewrite E. cbn [option_map]. exists (set_boids f l'), b'.
  set (m := boid_max_speed f) in *.
  set (s := sqrt (x_vel b ^ 2 + y_vel b ^ 2)).
  assert (Hs0 : 0 <= s) by apply sqrt_pos.
  destruct (Rlt_dec m s) as [Hgt|Hle].
  - exists (m / s).
    assert (Hb' : x_vel b' = m / s * x_vel b /\ y_vel b' = m / s * y_vel b /\
                  x_pos b' = x_pos b + x_vel b' * time_per_frame f /\
                  y_pos b' = y_pos b + y_vel b' * time_per_frame f).
    { subst b'. unfold limit_speed_boid. cbv zeta. fold s. unfold f_gt.
      rewrite (proj2 (f_lt_spec m s) Hgt). cbn [x_vel y_vel x_pos y_pos].
      repeat split; unfold Rdiv; ring. }
    destruct Hb' as (X & Y & PX & PY).
    repeat split; auto.
    + apply Rmult_le_pos; [exact Hm|]. left; apply Rinv_0_lt_compat; lra.
    + apply (Rmult_le_reg_r s); [lra|]. unfold Rdiv.
      rewrite Rmult_assoc, Rinv_l by lra. lra.
    + intros j Hj. apply (nth_error_vec_set_other _ _ _ _ _ E Hj).
  - exists 1.
    assert (Hb' : x_vel b' = x_vel b /\ y_vel b' = y_vel b /\
                  x_pos b' = x_pos b + x_vel b' * time_per_frame f /\
                  y_pos b' = y_pos b + y_vel b' * time_per_frame f).
    { subst b'. unfold limit_speed_boid. cbv zeta. fold s. unfold f_gt.
      rewrite (proj2 (f_lt_false m s)) by lra. cbn [x_vel y_vel x_pos y_pos].
      repeat split; reflexivity. }
    destruct Hb' as (X & Y & PX & PY).
    repeat split; auto; try lra.
    intros j Hj. apply (nth_error_vec_set_other _ _ _ _ _ E Hj).
Qed.

(** An agent at (0,0) with velocity (30,40), speed 50, in the settings of
    [Flock::new] (maximum speed 8): its velocity becomes (4.8, 6.4). *)
Lemma limit_speed_keeps_heading_witness :
  let f := mkFlock 1 [Boid_new 0 0 30 40] 1.0 50.0 0.0 0.0 0.0 1.0 8.0 800.0 500.0 in
  exists f' b' k,
    limit_speed f 0 = Some f' /\ nth_error (boids f') 0 = Some b' /\
    0 <= k <= 1 /\ x_vel b' = k * 30 /\ y_vel b' = k * 40.
Proof.
  intros f.
  destruct (limit_speed_keeps_heading f 0 (Boid_new 0 0 30 40) eq_refl ltac:(cbn; lra))
    as (f' & b' & k & E & N & K & X & Y & _).
  exists f', b', k. repeat split; auto; try lra.
Defined.

(** X12: [cohere_boid] of flock.rs, for a positive local count, a
    non-negative cohesion factor and a positive time per frame, changes the
    agent's velocity by a vector that never points away from the local mean
    position (non-negative dot product with the displacement to it); with
    cohesion 0 the velocity is kept; the position advances by the old
    velocity. *)
Theorem cohere_boid_steers_towards_mean (f : Flock) b n tx ty
    (Hn : (0 < n)%nat) (Hc : 0 <= cohesion_factor f) (Ht : 0 < time_per_frame f) :
  let b' := cohere_boid f b n tx ty in
  0 <= (x_vel b' - x_vel b) * (tx / INR n - x_pos b) +
       (y_vel b' - y_vel b) * (ty / INR n - y_pos b) /\
  (cohesion_factor f = 0 -> x_vel b' = x_vel b /\ y_vel b' = y_vel b) /\
  x_pos b' = x_pos b + x_vel b * time_per_frame f /\
  y_pos b' = y_pos b + y_vel b * time_per_frame f.
Proof.
  intros b'. subst b'. unfold cohere_boid; cbv zeta; cbn [x_vel y_vel x_pos y_pos].
  set (dx := tx / INR n - x_pos b). set (dy := ty / INR n - y_pos b).
  set (c := cohesion_factor f). set (t := time_per_frame f).
  assert (Hk : 0 <= c / t) by (apply Rmult_le_pos; [exact Hc|left; apply Rinv_0_lt_compat; exact Ht]).
  replace (x_vel b + dx * c / t - x_vel b) with (c / t * dx) by (unfold Rdiv; ring).
  replace (y_vel b + dy * c / t - y_vel b) with (c / t * dy) by (unfold Rdiv; ring).
  split; [nra|]. split; [|split; reflexivity].
  intros H0. unfold c in *. rewrite H0. split; unfold Rdiv; ring.
Qed.

(** An agent at (0,0) with two local neighbours whose positions sum to
    (10,20), cohesion 0.5: its velocity (1,1) becomes (3.5, 6). *)
Lemma cohere_boid_steers_towards_mean_witness :
  let f := mkFlock 3 [] 1.0 50.0 0.0 0.0 0.5 1.0 8.0 800.0 500.0 in
  let b' := cohere_boid f (Boid_new 0 0 1 1) 2 10 20 in
  x_vel b' = 3.5 /\ y_vel b' = 6 /\
  0 <= (x_vel b' - 1) * (10 / INR 2 - 0) + (y_vel b' - 1) * (20 / INR 2 - 0).
Proof.
  intros f b'.
  destruct (cohere_boid_steers_towards_mean f (Boid_new 0 0 1 1) 2 10 20
              ltac:(lia) ltac:(cbn; lra) ltac:(cbn; lra)) as [D _].
  split; [|split].
  - subst b'; unfold cohere_boid; cbv zeta; cbn [x_vel y_vel x_pos y_pos Boid_new cohesion_factor time_per_frame f INR]; lra.
  - subst b'; unfold cohere_boid; cbv zeta; cbn [x_vel y_vel x_pos y_pos Boid_new cohesion_factor time_per_frame f INR]; lra.
  - exact D.
Defined.

(** X13: after a valid construction with at least one agent,
    [randomly_generate_boids] can start every agent faster than
    [boid_max_speed]: each velocity component is drawn from [[-8, 8)]
    independently, so with every sample at the low end of its range each
    agent starts at speed [8 * sqrt 2 > 8]. *)
Theorem randomize_can_start_above_max_speed n cr lr r a c f0
    (Hnew : Flock_new n cr lr r a c = Ok f0) (Hn : (0 < n)%nat) :
  exists u : nat -> R, (forall k, 0 <= u k < 1) /\
    boids (randomly_generate_boids f0 u) <> [] /\
    Forall (fun b => boid_max_speed f0 < speed b) (boids (randomly_generate_boids f0 u)).
Proof.
  destruct (Flock_new_fields _ _ _ _ _ _ _ Hnew) as (Hsz & Hm & Hw & Hh).
  exists (fun _ => 0). split; [intros; lra|].
  unfold randomly_generate_boids; cbn [boids set_boids]. rewrite Hsz. split.
  - destruct n; [lia|]. simpl. discriminate.
  - apply Forall_forall. intros b Hin. apply in_map_iff in Hin.
    destruct Hin as (j & <- & _). rewrite Hm.
    unfold random_boid, Boid_new, speed, gen_range; cbv zeta; cbn [x_vel y_vel].
    rewrite Hm.
    rewrite <- (sqrt_pow2 8.0) at 1 by lra.
    apply sqrt_lt_1_alt. split; [nra|]. nra.
Qed.

Lemma randomize_can_start_above_max_speed_witness :
  exists f0, Flock_new 1 1.0 50.0 0.5 0.5 0.5 = Ok f0 /\
  exists u : nat -> R, (forall k, 0 <= u k < 1) /\
    boids (randomly_generate_boids f0 u) <> [] /\
    Forall (fun b => boid_max_speed f0 < speed b) (boids (randomly_generate_boids f0 u)).
Proof.
  assert (Hn : exists f0, Flock_new 1 1.0 50.0 0.5 0.5 0.5 = Ok f0).
  { unfold Flock_new; rewrite validate_config_errors; unfold config_errors,
      check_float_between_zero_and_one, validate_distances;
    cbn [max_dist_before_boid_is_no_longer_crowded max_dist_of_local_boid
         repulsion_factor adhesion_factor cohesion_factor]; eval_cmp.
    eexists; reflexivity. }
  destruct Hn as [f0 Hf0]. exists f0. split; [exact Hf0|].
  apply (randomize_can_start_above_max_speed 1 1.0 50.0 0.5 0.5 0.5 f0 Hf0). lia.
Defined.

Lemma filter_partition_length {A} (p q : A -> bool) l :
  (forall x, p x = true -> q x = true) ->
  (List.length (filter p l) + List.length (filter (fun x => negb (p x) && q x)%bool l))%nat =
  List.length (filter q l).
Proof.
  intros H. induction l as [|x l IH]; simpl; [reflexivity|].
  destruct (p x) eqn:Ep; cbn [negb andb].
  - rewrite (H x Ep). simpl. lia.
  - destruct (q x); simpl; lia.
Qed.

Lemma length_others {A} (l : list A) i :
  (i < List.length l)%nat ->
  List.length (firstn i l ++ skipn (S i) l) = (List.length l - 1)%nat.
Proof.
  intros Hi. rewrite length_app, length_firstn, length_skipn. lia.
Qed.

(** X14: in the scan of flock.rs's [update_boid], when the crowding radius
    is at most the local radius (as validation ensures), the crowding count
    plus the local count is the number of other agents within the local
    radius; so it never exceeds the number of agents minus one (the agent
    never counts itself). *)
Theorem scan_counts_agents_in_sight (f : Flock) i me
    (Hi : nth_error (boids f) i = Some me)
    (Hd : max_dist_before_boid_is_no_longer_crowded f <= max_dist_of_local_boid f) :
  let others := firstn i (boids f) ++ skipn (S i) (boids f) in
  let st := classify f me i in
  (num_crowding_boids st + num_local_boids st)%nat =
    List.length (filter (fun o => is_within_sight_of_local_boid me o
                                    (max_dist_of_local_boid f)) others) /\
  (num_crowding_boids st + num_local_boids st <= List.length (boids f) - 1)%nat.
Proof.
  intros others st.
  assert (Hst : st = fold_left (classify_step me (max_dist_before_boid_is_no_longer_crowded f)
                                  (max_dist_of_local_boid f)) others scan_init)
    by (subst st; unfold classify; apply classify_from_others).
  rewrite fold_classify_step in Hst. cbv zeta in Hst. clearbody st. subst st.
  cbn [num_crowding_boids num_local_boids scan_init]. rewrite ?Nat.add_0_l.
  assert (Hpq : forall o, is_crowded_by_boid me o (max_dist_before_boid_is_no_longer_crowded f) = true ->
                          is_within_sight_of_local_boid me o (max_dist_of_local_boid f) = true).
  { intros o Ho. apply is_crowded_by_boid_spec in Ho.
    unfold is_within_sight_of_local_boid. apply Bool.andb_true_iff.
    rewrite !f_lt_spec. lra. }
  pose proof (filter_partition_length
    (fun o => is_crowded_by_boid me o (max_dist_before_boid_is_no_longer_crowded f))
    (fun o => is_within_sight_of_local_boid me o (max_dist_of_local_boid f)) others Hpq) as E.
  cbv beta in E. rewrite E.
  split; [reflexivity|].
  replace (List.length (boids f) - 1)%nat with (List.length others).
  - apply filter_length_le.
  - apply length_others. apply nth_error_Some. congruence.
Qed.

(** The flock of the flock.rs crowding test with a third, distant agent:
    agent 0 sees one agent (which crowds it) and not the third. *)
Lemma scan_counts_agents_in_sight_witness :
  let f := mkFlock 3 [Boid_new 1.0 1.0 1.0 1.0; Boid_new 10.0 10.0 2.0 2.0;
                      Boid_new 900.0 900.0 0.0 0.0]
             40.0 500.0 0.0 0.0 0.0 1.0 8.0 800.0 500.0 in
  let st := classify f (Boid_new 1.0 1.0 1.0 1.0) 0 in
  (num_crowding_boids st + num_local_boids st <= 2)%nat.
Proof.
  intros f st.
  destruct (scan_counts_agents_in_sight f 0 (Boid_new 1.0 1.0 1.0 1.0) eq_refl
              ltac:(cbn; lra)) as [_ H].
  exact H.
Defined.

